(** * ngrx-json-api: the service facade of [src/services.ts]

    The facade forwards consumer commands to an ngrx [Store] by dispatching
    action objects, hands out live query handles, and answers synchronous
    snapshot lookups from a cached copy of the store state.

    The embedding is shallow: JavaScript objects that the facade mutates or
    captures in closures live in an explicit heap, [store.dispatch] appends to
    the list of actions the store has received, and code that can throw runs
    in a small state-and-exception monad. *)

From stdpp Require Import gmap strings list fin_maps.

Open Scope string_scope.
Open Scope list_scope.

(** ** JavaScript values, errors and completions *)

Module Js.

(** Object references. *)
Definition loc := positive.

Inductive val :=
| VUndefined
| VNull
| VBool (b : bool)
| VNum (z : Z)
| VStr (s : string)
| VRef (l : loc).

(** A typed slot that may hold [undefined], [null] or a value. *)
Inductive slot (A : Type) :=
| Undefined
| Null
| Present (a : A).
Arguments Undefined {A}.
Arguments Null {A}.
Arguments Present {A} a.

(** Thrown values: [new Error(message)], and the [TypeError] the runtime
    raises for a property access on [undefined] or [null]. *)
Inductive error :=
| Error (message : string)
| TypeError (message : string).

(** [e.name] *)
Definition name (e : error) : string :=
  match e with
  | Error _ => "Error"
  | TypeError _ => "TypeError"
  end.

(** [e.message] *)
Definition message (e : error) : string :=
  match e with
  | Error m => m
  | TypeError m => m
  end.

Inductive completion (A : Type) :=
| Normal (a : A)
| Throw (e : error).
Arguments Normal {A} a.
Arguments Throw {A} e.

Definition is_normal {A} (c : completion A) : bool :=
  match c with Normal _ => true | Throw _ => false end.

End Js.
Import Js.

(** ** Monads: exceptions alone, and exceptions over the program state *)

Class Monad (F : Type -> Type) := {
  ret : forall {A}, A -> F A;
  bind : forall {A B}, F A -> (A -> F B) -> F B
}.

Notation "'let!' x ':=' c 'in' k" := (bind c (fun x => k))
  (at level 10, x name, c at level 100, k at level 200).
Notation "'do!' c 'in' k" := (bind c (fun _ => k))
  (at level 10, c at level 100, k at level 200).

#[global] Instance completion_Monad : Monad completion := {|
  ret := fun A a => Normal a;
  bind := fun A B c k =>
    match c with
    | Normal a => k a
    | Throw e => Throw e
    end
|}.

(** ** Data model (the shapes [services.ts] relies on) *)

Record ResourceIdentifier := {
  type : string;
  id : string
}.

(** Modelled from the spec: [interfaces.ts] is not among the sources; a
    resource is an identifier with attribute and relationship mappings, and
    relationships hold references only. *)
Record Resource := {
  identifier : ResourceIdentifier;
  attributes : gmap string val;
  relationships : gmap string (list ResourceIdentifier)
}.

(** A store entry: the two fields [services.ts] reads from it. *)
Record ResourceStore := {
  resource : slot Resource;
  persistedResource : slot Resource
}.

(** [snapshot.data[type][id]] *)
Record NgrxJsonApiStore := {
  data : gmap string (gmap string ResourceStore)
}.

(** [Payload]: an object with optional [jsonApiData] and [query] fields. *)
Record Payload := {
  payload_jsonApiData : val;
  payload_query : val
}.

(** The action classes imported from [./actions], by constructor. *)
Inductive Action :=
| ApiCreateInitAction (payload : Payload)
| ApiReadInitAction (payload : Payload)
| ApiUpdateInitAction (payload : Payload)
| ApiDeleteInitAction (payload : Payload)
| DeleteFromStateAction (payload : Payload)
| PostStoreResourceAction (payload : Resource)
| PatchStoreResourceAction (payload : Resource)
| DeleteStoreResourceAction (payload : ResourceIdentifier)
| ApiCommitInitAction (storeLocation : string)
| RemoveQueryAction (queryId : val).

(** The [Api...InitAction] classes are the intents that ask the external
    collaborator to contact the remote API. *)
Definition is_api_intent (a : Action) : bool :=
  match a with
  | ApiCreateInitAction _ | ApiReadInitAction _ | ApiUpdateInitAction _
  | ApiDeleteInitAction _ | ApiCommitInitAction _ => true
  | _ => false
  end.

(** ** Program state *)

(** What the store was handed: the action, and the heap as it was at the
    moment of the (synchronous) [dispatch] call. *)
Record Dispatched := {
  action : Action;
  heap_at_dispatch : gmap loc (gmap string val)
}.

(** [storeSnapshot] is declared without an initial value: it is [undefined]
    until the subscription made in the constructor has received a store
    state. *)
Record World := {
  heap : gmap loc (gmap string val);
  storeSnapshot : slot NgrxJsonApiStore;
  storeLocation : string;
  dispatched : list Dispatched
}.

Definition M (A : Type) : Type := World -> completion A * World.

#[global] Instance M_Monad : Monad M := {|
  ret := fun A a w => (Normal a, w);
  bind := fun A B c k w =>
    match c w with
    | (Normal a, w') => k a w'
    | (Throw e, w') => (Throw e, w')
    end
|}.

Definition lift {A} (c : completion A) : M A := fun w => (c, w).

Definition gets {A} (f : World -> A) : M A := fun w => (Normal (f w), w).

(** [o[k] = v] on an object reference; an unallocated reference stands for
    [undefined] or [null], on which the assignment throws. *)
Definition set_prop (o : loc) (k : string) (v : val) : M unit := fun w =>
  match heap w !! o with
  | Some fields =>
      (Normal tt,
       {| heap := <[o := <[k := v]> fields]> (heap w);
          storeSnapshot := storeSnapshot w;
          storeLocation := storeLocation w;
          dispatched := dispatched w |})
  | None => (Throw (TypeError "Cannot set property of undefined"), w)
  end.

(** [o[k]]: a missing property reads as [undefined]. *)
Definition get_prop (o : loc) (k : string) : M val := fun w =>
  match heap w !! o with
  | Some fields => (Normal (default VUndefined (fields !! k)), w)
  | None => (Throw (TypeError "Cannot read property of undefined"), w)
  end.

(** [this.store.dispatch(a)] *)
Definition store_dispatch (a : Action) : M unit := fun w =>
  (Normal tt,
   {| heap := heap w;
      storeSnapshot := storeSnapshot w;
      storeLocation := storeLocation w;
      dispatched := dispatched w ++ [{| action := a; heap_at_dispatch := heap w |}] |}).

(** ** Observables of query results *)

(** [selectors.getResults$(store, queryId)] followed by [map] calls: the
    source is named by the query id it selects, and every array the source
    emits is passed through [project] before it reaches the subscriber; a
    throwing [project] reaches the subscriber as an error. *)
Record Observable (T : Type) := {
  source_queryId : val;
  project : list Resource -> completion T
}.
Arguments source_queryId {T} _.
Arguments project {T} _ _.

(** [obs.map(f)] *)
Definition obs_map {T U} (f : T -> completion U) (obs : Observable T) : Observable U :=
  {| source_queryId := source_queryId obs;
     project := fun it => let! x := project obs it in f x |}.

(** What the subscriber receives when the source emits [it]. *)
Definition deliver {T} (obs : Observable T) (it : list Resource) : completion T :=
  project obs it.

Record ResourceQueryHandle (T : Type) := {
  results : Observable T;
  unsubscribe : M unit
}.
Arguments results {T} _.
Arguments unsubscribe {T} _.

(** ** [class NgrxJsonApiService] *)

Definition create (payload : Payload) : M unit :=
  store_dispatch (ApiCreateInitAction payload).

Definition read (payload : Payload) : M unit :=
  store_dispatch (ApiReadInitAction payload).

Definition update (payload : Payload) : M unit :=
  store_dispatch (ApiUpdateInitAction payload).

Definition delete (payload : Payload) : M unit :=
  store_dispatch (ApiDeleteInitAction payload).

Definition deleteFromState (payload : Payload) : M unit :=
  store_dispatch (DeleteFromStateAction payload).

(** ** [class NgrxJsonApiServiceV2] *)

Definition selectResults (queryId : val) : Observable (list Resource) :=
  {| source_queryId := queryId; project := fun it => Normal it |}.

Definition removeQuery (queryId : val) : M unit :=
  store_dispatch (RemoveQueryAction queryId).

Definition findInternal (query : loc) : M unit :=
  let payload := {| payload_jsonApiData := VUndefined; payload_query := VRef query |} in
  store_dispatch (ApiReadInitAction payload).

(** The callback [findOne] maps over the result arrays. *)
Definition unique_result (it : list Resource) : completion (slot Resource) :=
  if Nat.eqb (length it) 0 then Normal Null
  else if Nat.eqb (length it) 1 then
    Normal (match it !! 0%nat with Some r => Present r | None => Undefined end)
  else Throw (Error "Unique result expected").

Definition findOne (query : loc) : M (ResourceQueryHandle (slot Resource)) :=
  do! set_prop query "queryType" (VStr "getOne") in
  do! findInternal query in
  let! queryId := get_prop query "queryId" in
  ret {| results := obs_map unique_result (selectResults queryId);
         unsubscribe := (let! queryId' := get_prop query "queryId" in removeQuery queryId') |}.

Definition findMany (query : loc) : M (ResourceQueryHandle (list Resource)) :=
  do! set_prop query "queryType" (VStr "getMany") in
  do! findInternal query in
  let! queryId := get_prop query "queryId" in
  ret {| results := selectResults queryId;
         unsubscribe := (let! queryId' := get_prop query "queryId" in removeQuery queryId') |}.

(** The part of the JavaScript runtime that a property read on the store
    state can reach. A plain object answers a read of a name it has no own
    property for with what it inherits from [Object.prototype]; the values met
    there (functions, prototypes, strings, ...) are the runtime's, not the
    store's, and are read by the runtime's rules. No value of the runtime has
    a property called [resource] or [persistedResource]. *)
Class Runtime := {
  builtin : Type;
  inherited : string -> slot builtin;
  builtin_truthy : builtin -> bool;
  builtin_get : builtin -> string -> completion (slot builtin);
  builtin_no_resource :
    forall b, builtin_get b "resource" = Normal Undefined;
  builtin_no_persistedResource :
    forall b, builtin_get b "persistedResource" = Normal Undefined
}.

Definition slot_map {A B} (f : A -> B) (s : slot A) : slot B :=
  match s with
  | Undefined => Undefined
  | Null => Null
  | Present a => Present (f a)
  end.

Section Snapshots.

Context {rt : Runtime}.

(** What a property read yields: an own property of a store object, or
    something that is not the store's ([undefined], [null] or a value of the
    runtime). *)
Inductive property (V : Type) :=
| Own (v : V)
| NotOwn (x : slot builtin).
Arguments Own {V} v.
Arguments NotOwn {V} x.

(** [o[k]] on a plain object with the own properties [fields]: the own
    property, or else what the prototype chain has under that name. *)
Definition lookup_property {V} (fields : gmap string V) (k : string) : property V :=
  match fields !! k with
  | Some v => Own v
  | None => NotOwn (inherited k)
  end.

(** [o[k]] where [o] is itself the result of a read. *)
Definition index {V} (o : property (gmap string V)) (k : string)
  : completion (property V) :=
  match o with
  | Own fields => Normal (lookup_property fields k)
  | NotOwn (Present b) => let! x := builtin_get b k in Normal (NotOwn x)
  | NotOwn _ => Throw (TypeError "Cannot read property of undefined")
  end.

(** Objects are truthy, [undefined] and [null] are falsy, and the runtime
    says which of its own values are. *)
Definition truthy {V} (o : property V) : bool :=
  match o with
  | Own _ => true
  | NotOwn (Present b) => builtin_truthy b
  | NotOwn _ => false
  end.

(** [e.name], where [f] is that field of a store entry. *)
Definition field {V} (name : string) (f : V -> slot Resource) (e : property V)
  : completion (slot (Resource + builtin)) :=
  match e with
  | Own v => Normal (slot_map inl (f v))
  | NotOwn (Present b) => let! x := builtin_get b name in Normal (slot_map inr x)
  | NotOwn _ => Throw (TypeError "Cannot read property of undefined")
  end.

(** [snapshot.data] *)
Definition data_of (snapshot : slot NgrxJsonApiStore)
  : completion (property (gmap string (gmap string ResourceStore))) :=
  match snapshot with
  | Present st => Normal (Own (data st))
  | _ => Throw (TypeError "Cannot read property of undefined")
  end.

(** [snapshot.data[identifier.type] && snapshot.data[identifier.type][identifier.id]] *)
Definition entry_guard (snapshot : slot NgrxJsonApiStore) (identifier : ResourceIdentifier)
  : completion bool :=
  let! all := data_of snapshot in
  let! byType := index all (type identifier) in
  if truthy byType then
    let! all' := data_of snapshot in
    let! byType' := index all' (type identifier) in
    let! entry := index byType' (id identifier) in
    ret (truthy entry)
  else ret false.

Definition resourceSnapshotOf (snapshot : slot NgrxJsonApiStore)
    (identifier : ResourceIdentifier) : completion (slot (Resource + builtin)) :=
  let! known := entry_guard snapshot identifier in
  if (known : bool) then
    let! all := data_of snapshot in
    let! byType := index all (type identifier) in
    let! entry := index byType (id identifier) in
    field "resource" resource entry
  else ret Null.

Definition persistedResourceSnapshotOf (snapshot : slot NgrxJsonApiStore)
    (identifier : ResourceIdentifier) : completion (slot (Resource + builtin)) :=
  let! known := entry_guard snapshot identifier in
  if (known : bool) then
    let! all := data_of snapshot in
    let! byType := index all (type identifier) in
    let! entry := index byType (id identifier) in
    field "persistedResource" persistedResource entry
  else ret Null.

Definition getResourceSnapshot (identifier : ResourceIdentifier)
  : M (slot (Resource + builtin)) :=
  let! snapshot := gets storeSnapshot in
  lift (resourceSnapshotOf snapshot identifier).

Definition getPersistedResourceSnapshot (identifier : ResourceIdentifier)
  : M (slot (Resource + builtin)) :=
  let! snapshot := gets storeSnapshot in
  lift (persistedResourceSnapshotOf snapshot identifier).

(** Whether the name [k], read on a plain object that has no own property
    of that name, yields a truthy inherited value. *)
Definition inherits_truthy (k : string) : bool :=
  match inherited k with
  | Present b => builtin_truthy b
  | _ => false
  end.

(** Whether the lookup of [identifier] in the store state [st] stays within
    the store's own data: the type is an own key or yields nothing truthy,
    and under an own type the id is an own key or yields nothing truthy. *)
Definition stays_in_store (st : NgrxJsonApiStore) (identifier : ResourceIdentifier)
  : bool :=
  match data st !! type identifier with
  | Some byId =>
      match byId !! id identifier with
      | Some _ => true
      | None => negb (inherits_truthy (id identifier))
      end
  | None => negb (inherits_truthy (type identifier))
  end.

End Snapshots.

Arguments Own {rt V} v.
Arguments NotOwn {rt V} x.

Definition patchResource (resource : Resource) : M unit :=
  store_dispatch (PatchStoreResourceAction resource).

Definition postResource (resource : Resource) : M unit :=
  store_dispatch (PostStoreResourceAction resource).

Definition deleteResource (resourceId : ResourceIdentifier) : M unit :=
  store_dispatch (DeleteStoreResourceAction resourceId).

Definition commit : M unit :=
  let! storeLocation := gets storeLocation in
  store_dispatch (ApiCommitInitAction storeLocation).

(** ** Observing the facade *)

(** What a subscriber of [findOne(query).results] receives when the
    selected source emits the result array [it]. *)
Definition findOne_delivers (query : loc) (w : World) (it : list Resource)
  : completion (slot Resource) :=
  match findOne query w with
  | (Normal h, _) => deliver (results h) it
  | (Throw e, _) => Throw e
  end.

(** The same for [findMany(query).results]. *)
Definition findMany_delivers (query : loc) (w : World) (it : list Resource)
  : completion (list Resource) :=
  match findMany query w with
  | (Normal h, _) => deliver (results h) it
  | (Throw e, _) => Throw e
  end.

(** The query id whose results the handle returned by a [find...] call
    selects. *)
Definition results_source {T} (r : completion (ResourceQueryHandle T) * World) : val :=
  match r with
  | (Normal h, _) => source_queryId (results h)
  | (Throw _, _) => VUndefined
  end.

(** Calling [handle.unsubscribe()] on what a [find...] call returned, in the
    program state [w] of that later moment. *)
Definition unsubscribe_in {T} (r : completion (ResourceQueryHandle T) * World)
    (w : World) : completion unit * World :=
  match r with
  | (Normal h, _) => unsubscribe h w
  | (Throw e, _) => (Throw e, w)
  end.

(** The actions the store was handed between two states of the program. *)
Definition new_actions (w w' : World) : list Action :=
  action <$> drop (length (dispatched w)) (dispatched w').

(** The query object as the store saw it when it was handed its latest
    action. *)
Definition seen_at_last_dispatch (query : loc) (w : World) : option (gmap string val) :=
  match last (dispatched w) with
  | Some d => heap_at_dispatch d !! query
  | None => None
  end.

(** The three staging calls of [NgrxJsonApiServiceV2] as data, and a run of
    them. *)
Inductive StagingCall :=
| CallPatchResource (resource : Resource)
| CallPostResource (resource : Resource)
| CallDeleteResource (resourceId : ResourceIdentifier).

Definition staging_call (c : StagingCall) : M unit :=
  match c with
  | CallPatchResource r => patchResource r
  | CallPostResource r => postResource r
  | CallDeleteResource i => deleteResource i
  end.

Fixpoint staging_calls (cs : list StagingCall) : M unit :=
  match cs with
  | [] => ret tt
  | c :: cs' => do! staging_call c in staging_calls cs'
  end.

(** The store emits a new state and the subscription made in the constructor
    stores it: [it => this.storeSnapshot = it]. *)
Definition with_snapshot (it : NgrxJsonApiStore) (w : World) : World :=
  {| heap := heap w; storeSnapshot := Present it;
     storeLocation := storeLocation w; dispatched := dispatched w |}.

(** A store state in which the entry of [i], if there is one, has the current
    resource [cur] and the persisted resource it had. *)
Definition set_current (i : ResourceIdentifier) (cur : slot Resource)
    (st : NgrxJsonApiStore) : NgrxJsonApiStore :=
  {| data :=
       alter (alter (fun e => {| resource := cur;
                                 persistedResource := persistedResource e |}) (id i))
             (type i) (data st) |}.

(** ** The cache behind the facade

    The reducer, the selectors and the pending-change bookkeeping that the
    dispatched actions are consumed by are not part of [services.ts]. *)

#[global] Instance ResourceIdentifier_eq_dec : EqDecision ResourceIdentifier.
Proof. solve_decision. Defined.

Module Core.

(** Modelled from the spec: the PendingChangeRecord of the data model, one
    of Create(resource), Patch(identifier, partial attributes and
    relationships) and Delete(identifier); the tracker code is missing. *)
Inductive PendingChangeRecord :=
| Create (r : Resource)
| Patch (i : ResourceIdentifier) (attrs : gmap string val)
        (rels : gmap string (list ResourceIdentifier))
| Delete (i : ResourceIdentifier).

Definition record_identifier (c : PendingChangeRecord) : ResourceIdentifier :=
  match c with
  | Create r => identifier r
  | Patch i _ _ => i
  | Delete i => i
  end.

Definition is_delete (c : PendingChangeRecord) : bool :=
  match c with Delete _ => true | _ => false end.

(** The pending record of an identifier, if there is one. *)
Definition lookup_pending (i : ResourceIdentifier) (t : list PendingChangeRecord)
  : option PendingChangeRecord :=
  List.find (fun c => bool_decide (record_identifier c = i)) t.

(** How many records the tracker holds for an identifier. *)
Definition count_pending (i : ResourceIdentifier) (t : list PendingChangeRecord) : nat :=
  length (List.filter (fun c => bool_decide (record_identifier c = i)) t).

(** Modelled from the spec: the merge of a Patch into the fields of a
    resource, which the missing tracker performs; the newer fields win. *)
Definition merge_fields (r : Resource) (attrs : gmap string val)
    (rels : gmap string (list ResourceIdentifier)) : Resource :=
  {| identifier := identifier r;
     attributes := attrs ∪ attributes r;
     relationships := rels ∪ relationships r |}.

(** Modelled from the spec: the tracker (missing from the sources) keeps
    its records in original staging order; staging for an identifier
    rewrites the record already there, in its place, or appends one when
    there is none. [f] decides the new record from the old one; [None]
    drops the record. *)
Fixpoint stage (f : option PendingChangeRecord -> option PendingChangeRecord)
    (i : ResourceIdentifier) (t : list PendingChangeRecord) : list PendingChangeRecord :=
  match t with
  | [] => match f None with Some c => [c] | None => [] end
  | c :: t' =>
      if bool_decide (record_identifier c = i)
      then match f (Some c) with Some c' => c' :: t' | None => t' end
      else c :: stage f i t'
  end.

(** Modelled from the spec: stageCreate of the missing tracker; a resource
    already staged under the same identifier gets replaced. *)
Definition stageCreate (r : Resource) (t : list PendingChangeRecord)
  : list PendingChangeRecord :=
  stage (fun _ => Some (Create r)) (identifier r) t.

(** Modelled from the spec: stagePatch of the missing tracker; a later
    Patch merges into an existing pending Create or Patch rather than
    creating a duplicate. The spec gives no rule for a Patch staged after a
    Delete; the Delete is kept. *)
Definition stagePatch (i : ResourceIdentifier) (attrs : gmap string val)
    (rels : gmap string (list ResourceIdentifier)) (t : list PendingChangeRecord)
  : list PendingChangeRecord :=
  stage (fun old =>
           match old with
           | Some (Create r) => Some (Create (merge_fields r attrs rels))
           | Some (Patch _ attrs0 rels0) => Some (Patch i (attrs ∪ attrs0) (rels ∪ rels0))
           | Some (Delete _) => Some (Delete i)
           | None => Some (Patch i attrs rels)
           end) i t.

(** Modelled from the spec: stageDelete of the missing tracker; a Delete
    supersedes and discards a prior Create or Patch, except that a Delete of
    a not-yet-persisted Create removes the resource entirely rather than
    queuing a delete request. *)
Definition stageDelete (i : ResourceIdentifier) (t : list PendingChangeRecord)
  : list PendingChangeRecord :=
  stage (fun old =>
           match old with
           | Some (Create _) => None
           | _ => Some (Delete i)
           end) i t.

(** The three staging requests as data. *)
Inductive Staging :=
| StageCreate (r : Resource)
| StagePatch (i : ResourceIdentifier) (attrs : gmap string val)
             (rels : gmap string (list ResourceIdentifier))
| StageDelete (i : ResourceIdentifier).

Definition staged_identifier (c : Staging) : ResourceIdentifier :=
  match c with
  | StageCreate r => identifier r
  | StagePatch i _ _ => i
  | StageDelete i => i
  end.

Definition stage_one (t : list PendingChangeRecord) (c : Staging)
  : list PendingChangeRecord :=
  match c with
  | StageCreate r => stageCreate r t
  | StagePatch i attrs rels => stagePatch i attrs rels t
  | StageDelete i => stageDelete i t
  end.

(** Modelled from the spec: allPending of the missing tracker after a run
    of staging requests on an empty tracker. *)
Definition stage_all (cs : list Staging) : list PendingChangeRecord :=
  foldl stage_one [] cs.

(** Modelled from the spec: the delete requests a commit would send. *)
Definition delete_requests (t : list PendingChangeRecord) : list ResourceIdentifier :=
  record_identifier <$> List.filter is_delete t.

(** Modelled from the spec: an active query of the missing QueryRegistry;
    [queryParams] stands for its filter, sort and include parameters. *)
Record Query := {
  queryType : string;
  queryParams : val
}.

(** Modelled from the spec: the state the missing reducer owns, namely the
    ResourceStore, the PendingChangeTracker and the QueryRegistry. *)
Record State := {
  store : NgrxJsonApiStore;
  tracker : list PendingChangeRecord;
  registry : gmap string Query
}.

Definition lookup_entry (st : NgrxJsonApiStore) (i : ResourceIdentifier)
  : option ResourceStore :=
  match data st !! type i with
  | Some byId => byId !! id i
  | None => None
  end.

Definition insert_entry (i : ResourceIdentifier) (e : ResourceStore)
    (st : NgrxJsonApiStore) : NgrxJsonApiStore :=
  {| data := <[type i := <[id i := e]> (default ∅ (data st !! type i))]> (data st) |}.

(** Modelled from the spec: upsertPersisted of the missing ResourceStore;
    it inserts or replaces the persisted state for the resource's
    identifier and, if no pending local edit exists for that identifier,
    also sets current = persisted. With a pending edit the current state is
    left as it is; an entry created on the spot starts from the persisted
    state. *)
Definition upsertPersisted (r : Resource) (s : State) : State :=
  let i := identifier r in
  let current :=
    match lookup_pending i (tracker s), lookup_entry (store s) i with
    | Some _, Some e => resource e
    | _, _ => Present r
    end in
  {| store := insert_entry i {| resource := current; persistedResource := Present r |}
                (store s);
     tracker := tracker s;
     registry := registry s |}.

Definition delete_entry (i : ResourceIdentifier) (st : NgrxJsonApiStore)
  : NgrxJsonApiStore :=
  {| data := alter (base.delete (id i)) (type i) (data st) |}.

(** Modelled from the spec: the current state after a local edit; the
    reducer is missing. A Create installs the draft, a Patch lays its fields
    over the current state, a Delete only marks the resource, except that
    the Delete of a not-yet-persisted Create ([pending] is that Create)
    removes the resource entirely. *)
Definition edit_current (pending : option PendingChangeRecord) (c : Staging)
    (st : NgrxJsonApiStore) : NgrxJsonApiStore :=
  match c with
  | StageCreate r =>
      insert_entry (identifier r)
        {| resource := Present r;
           persistedResource :=
             match lookup_entry st (identifier r) with
             | Some e => persistedResource e
             | None => Null
             end |} st
  | StagePatch i attrs rels =>
      match lookup_entry st i with
      | Some {| resource := Present cur; persistedResource := p |} =>
          insert_entry i
            {| resource := Present (merge_fields cur attrs rels);
               persistedResource := p |} st
      | _ => st
      end
  | StageDelete i =>
      match pending with
      | Some (Create _) => delete_entry i st
      | _ => st
      end
  end.

(** Modelled from the spec: applyLocalEdit of the missing ResourceStore; it
    updates current without touching persisted and records the change in
    the tracker. *)
Definition applyLocalEdit (c : Staging) (s : State) : State :=
  {| store := edit_current (lookup_pending (staged_identifier c) (tracker s)) c (store s);
     tracker := stage_one (tracker s) c;
     registry := registry s |}.

(** Modelled from the spec: promoteOnCommitSuccess of the missing
    ResourceStore; persisted = current, and the pending record is cleared. *)
Definition promoteOnCommitSuccess (i : ResourceIdentifier) (s : State) : State :=
  {| store :=
       match lookup_entry (store s) i with
       | Some e =>
           insert_entry i {| resource := resource e; persistedResource := resource e |}
             (store s)
       | None => store s
       end;
     tracker := List.filter (fun c => negb (bool_decide (record_identifier c = i)))
                  (tracker s);
     registry := registry s |}.

(** Modelled from the spec: registering a query in the missing
    QueryRegistry, as findOne and findMany cause. *)
Definition registerQuery (queryId : string) (q : Query) (s : State) : State :=
  {| store := store s; tracker := tracker s;
     registry := <[queryId := q]> (registry s) |}.

(** Modelled from the spec: removeQuery of the missing QueryRegistry; it
    deregisters the query. *)
Definition removeQuery (queryId : string) (s : State) : State :=
  {| store := store s; tracker := tracker s;
     registry := base.delete queryId (registry s) |}.

(** A run of upsertPersisted calls with no local edit in between. *)
Definition upsert_all (rs : list Resource) (s : State) : State :=
  foldl (fun s r => upsertPersisted r s) s rs.

(** Modelled from the spec: the state of the missing reducer before
    anything has happened to the cache. *)
Definition initial : State :=
  {| store := {| data := ∅ |}; tracker := []; registry := ∅ |}.

(** Every known resource without a pending local edit has its current
    state equal to its persisted state. *)
Definition consistent (s : State) : Prop :=
  forall (i : ResourceIdentifier) (e : ResourceStore),
    lookup_entry (store s) i = Some e ->
    lookup_pending i (tracker s) = None ->
    resource e = persistedResource e.

(** Modelled from the spec: the events the missing reducer reacts to; every
    mutation entry point is a total function of the state and the event. *)
Inductive Event :=
| UpsertPersisted (r : Resource)
| ApplyLocalEdit (c : Staging)
| PromoteOnCommitSuccess (i : ResourceIdentifier)
| RegisterQuery (queryId : string) (q : Query)
| RemoveQuery (queryId : string).

Definition apply_event (s : State) (e : Event) : State :=
  match e with
  | UpsertPersisted r => upsertPersisted r s
  | ApplyLocalEdit c => applyLocalEdit c s
  | PromoteOnCommitSuccess i => promoteOnCommitSuccess i s
  | RegisterQuery queryId q => registerQuery queryId q s
  | RemoveQuery queryId => removeQuery queryId s
  end.

Definition registers (queryId : string) (e : Event) : bool :=
  match e with
  | RegisterQuery k _ => bool_decide (k = queryId)
  | _ => false
  end.

(** Modelled from the spec: the query that the missing reducer deregisters
    on receiving an action; a RemoveQueryAction names it, and no other action
    removes a query. *)
Definition removal_of (a : Action) : option string :=
  match a with
  | RemoveQueryAction (VStr k) => Some k
  | _ => None
  end.

(** Modelled from the spec: the state after the missing reducer has taken
    the removals among the actions it was handed, in order. *)
Definition reduce_removals (actions : list Action) (s : State) : State :=
  foldl (fun s a => match removal_of a with
                    | Some k => removeQuery k s
                    | None => s
                    end) s actions.

Section Deliveries.

(** The QueryResolver: the ordered identifiers a query matches in a
    store. Its matching rules play no part below. *)
Variable resolve : Query -> NgrxJsonApiStore -> list ResourceIdentifier.

(** Modelled from the spec: the recomputation of the missing
    QueryResolver; every registered query is re-evaluated and its result
    delivered under its query identifier. *)
Definition recompute (s : State) : list (string * list ResourceIdentifier) :=
  (fun kq => (kq.1, resolve kq.2 (store s))) <$> map_to_list (registry s).

(** The deliveries a run of events causes, in order. *)
Fixpoint run (es : list Event) (s : State) : list (string * list ResourceIdentifier) :=
  match es with
  | [] => []
  | e :: es' =>
      let s' := apply_event s e in
      recompute s' ++ run es' s'
  end.

End Deliveries.

End Core.

(** ** Sample data *)

Module Sample.

Definition article (n : string) : Resource :=
  {| identifier := {| type := "article"; id := n |};
     attributes := {[ "title" := VStr n ]};
     relationships := ∅ |}.

(** [{ queryId: "q1", type: "article", queryType: "getMany" }] at reference 1
    and [{ queryId: "q2", type: "article", queryType: "getOne" }] at
    reference 2. *)
Definition objects : gmap loc (gmap string val) :=
  {[ 1%positive := {[ "queryId" := VStr "q1"; "type" := VStr "article";
                      "queryType" := VStr "getMany" ]};
     2%positive := {[ "queryId" := VStr "q2"; "type" := VStr "article";
                      "queryType" := VStr "getOne" ]} ]}.

(** Article 1 is known and carries an uncommitted title; article 2 is not
    known. *)
Definition cached : NgrxJsonApiStore :=
  {| data :=
       {[ "article" :=
            {[ "1" := {| resource := Present (Core.merge_fields (article "1")
                                                {[ "title" := VStr "draft" ]} ∅);
                         persistedResource := Present (article "1") |} ]} ]} |}.

Definition world : World :=
  {| heap := objects; storeSnapshot := Present cached;
     storeLocation := "api"; dispatched := [] |}.

(** The program after [findOne] has been called with the query at
    reference 2 and the caller has then assigned [query.queryId = "q9"]. *)
Definition reassigned : World :=
  (set_prop 2%positive "queryId" (VStr "q9") (findOne 2%positive world).2).2.

(** A registry in which the query q2 is active. *)
Definition registered : Core.State :=
  Core.registerQuery "q2"
    {| Core.queryType := "getOne"; Core.queryParams := VRef 2%positive |}
    Core.initial.

(** The same program before the store has emitted its first state. *)
Definition unemitted : World :=
  {| heap := objects; storeSnapshot := Undefined;
     storeLocation := "api"; dispatched := [] |}.

(** Values of the runtime met below: the [Object] function, its prototype,
    the methods of that prototype, and strings. *)
Inductive builtin_value :=
| ObjectFunction
| ObjectPrototype
| PrototypeMethod (name : string)
| StringValue (s : string).

Definition prototype_methods : list string :=
  ["toString"; "toLocaleString"; "valueOf"; "hasOwnProperty"; "isPrototypeOf";
   "propertyIsEnumerable"].

(** What [Object.prototype] holds under a name. *)
Definition prototype_member (k : string) : slot builtin_value :=
  if bool_decide (k = "constructor") then Present ObjectFunction
  else if bool_decide (k ∈ prototype_methods) then Present (PrototypeMethod k)
  else Undefined.

(** A runtime with the members of [Object.prototype] that every engine has,
    and of the properties of those members their [name], the [prototype] of
    [Object], and the members inherited again from [Object.prototype]. *)
Definition runtime_get (b : builtin_value) (k : string)
  : completion (slot builtin_value) :=
  match b with
  | ObjectFunction =>
      if bool_decide (k = "name") then Normal (Present (StringValue "Object"))
      else if bool_decide (k = "prototype") then Normal (Present ObjectPrototype)
      else Normal (prototype_member k)
  | ObjectPrototype => Normal (prototype_member k)
  | PrototypeMethod n =>
      if bool_decide (k = "name") then Normal (Present (StringValue n))
      else Normal (prototype_member k)
  | StringValue _ => Normal (prototype_member k)
  end.

Definition runtime_truthy (b : builtin_value) : bool :=
  match b with
  | StringValue s => negb (bool_decide (s = ""))
  | _ => true
  end.

Definition runtime_no_resource (b : builtin_value)
  : runtime_get b "resource" = Normal Undefined :=
  match b with
  | ObjectFunction => eq_refl
  | ObjectPrototype => eq_refl
  | PrototypeMethod _ => eq_refl
  | StringValue _ => eq_refl
  end.

Definition runtime_no_persistedResource (b : builtin_value)
  : runtime_get b "persistedResource" = Normal Undefined :=
  match b with
  | ObjectFunction => eq_refl
  | ObjectPrototype => eq_refl
  | PrototypeMethod _ => eq_refl
  | StringValue _ => eq_refl
  end.

Definition runtime : Runtime :=
  {| builtin := builtin_value;
     inherited := prototype_member;
     builtin_truthy := runtime_truthy;
     builtin_get := runtime_get;
     builtin_no_resource := runtime_no_resource;
     builtin_no_persistedResource := runtime_no_persistedResource |}.

End Sample.

(** ** Runs of calls and streams of results *)

(** The five commands of [NgrxJsonApiService] as data, and a run of them. *)
Inductive Command :=
| CallCreate (payload : Payload)
| CallRead (payload : Payload)
| CallUpdate (payload : Payload)
| CallDelete (payload : Payload)
| CallDeleteFromState (payload : Payload).

Definition command (c : Command) : M unit :=
  match c with
  | CallCreate p => create p
  | CallRead p => read p
  | CallUpdate p => update p
  | CallDelete p => delete p
  | CallDeleteFromState p => deleteFromState p
  end.

Fixpoint commands (cs : list Command) : M unit :=
  match cs with
  | [] => ret tt
  | c :: cs' => do! command c in commands cs'
  end.

(** The action class each command instantiates. *)
Definition command_action (c : Command) : Action :=
  match c with
  | CallCreate p => ApiCreateInitAction p
  | CallRead p => ApiReadInitAction p
  | CallUpdate p => ApiUpdateInitAction p
  | CallDelete p => ApiDeleteInitAction p
  | CallDeleteFromState p => DeleteFromStateAction p
  end.

(** The action class each staging call instantiates. *)
Definition staging_action (c : StagingCall) : Action :=
  match c with
  | CallPatchResource r => PatchStoreResourceAction r
  | CallPostResource r => PostStoreResourceAction r
  | CallDeleteResource i => DeleteStoreResourceAction i
  end.

(** The same call made [n] times in a row. *)
Fixpoint times (n : nat) (call : M unit) : M unit :=
  match n with
  | O => ret tt
  | S n' => do! call in times n' call
  end.

(** The notifications a subscriber receives while the source emits the
    arrays [its] one after the other: a value per emission, until [project]
    throws; the error notification is the last one, as the Observable
    contract has it. *)
Fixpoint deliver_stream {T} (obs : Observable T) (its : list (list Resource))
  : list (completion T) :=
  match its with
  | [] => []
  | it :: its' =>
      match deliver obs it with
      | Normal x => Normal x :: deliver_stream obs its'
      | Throw e => [Throw e]
      end
  end.

(** The notifications of [findOne(query).results] and of
    [findMany(query).results] for the emissions [its]. *)
Definition findOne_stream (query : loc) (w : World) (its : list (list Resource))
  : list (completion (slot Resource)) :=
  match findOne query w with
  | (Normal h, _) => deliver_stream (results h) its
  | (Throw _, _) => []
  end.

Definition findMany_stream (query : loc) (w : World) (its : list (list Resource))
  : list (completion (list Resource)) :=
  match findMany query w with
  | (Normal h, _) => deliver_stream (results h) its
  | (Throw _, _) => []
  end.

(** What [findOne] delivers for a result array with at most one element. *)
Definition at_most_one (it : list Resource) : slot Resource :=
  match it with
  | [] => Null
  | r :: _ => Present r
  end.

(** * Properties *)

(** ** Running [findOne] and [findMany] *)

Lemma find_queryId_kept (fields : gmap string val) (v : val) :
  default VUndefined (<["queryType" := v]> fields !! "queryId")
  = default VUndefined (fields !! "queryId").
Proof. by rewrite lookup_insert_ne. Qed.

Lemma findOne_run (w : World) (query : loc) (fields : gmap string val) :
  heap w !! query = Some fields ->
  let heap' := <[query := <["queryType" := VStr "getOne"]> fields]> (heap w) in
  let queryId := default VUndefined (fields !! "queryId") in
  findOne query w =
    (Normal {| results := obs_map unique_result (selectResults queryId);
               unsubscribe := (let! queryId' := get_prop query "queryId" in
                               removeQuery queryId') |},
     {| heap := heap';
        storeSnapshot := storeSnapshot w;
        storeLocation := storeLocation w;
        dispatched :=
          dispatched w ++
          [{| action := ApiReadInitAction {| payload_jsonApiData := VUndefined;
                                             payload_query := VRef query |};
              heap_at_dispatch := heap' |}] |}).
Proof.
  intros Hq. unfold findOne. cbn. unfold set_prop. rewrite Hq. cbn.
  unfold get_prop. cbn. rewrite lookup_insert_eq. cbn.
  by rewrite find_queryId_kept.
Qed.

Lemma findMany_run (w : World) (query : loc) (fields : gmap string val) :
  heap w !! query = Some fields ->
  let heap' := <[query := <["queryType" := VStr "getMany"]> fields]> (heap w) in
  let queryId := default VUndefined (fields !! "queryId") in
  findMany query w =
    (Normal {| results := selectResults queryId;
               unsubscribe := (let! queryId' := get_prop query "queryId" in
                               removeQuery queryId') |},
     {| heap := heap';
        storeSnapshot := storeSnapshot w;
        storeLocation := storeLocation w;
        dispatched :=
          dispatched w ++
          [{| action := ApiReadInitAction {| payload_jsonApiData := VUndefined;
                                             payload_query := VRef query |};
              heap_at_dispatch := heap' |}] |}).
Proof.
  intros Hq. unfold findMany. cbn. unfold set_prop. rewrite Hq. cbn.
  unfold get_prop. cbn. rewrite lookup_insert_eq. cbn.
  by rewrite find_queryId_kept.
Qed.

Lemma unique_result_cases (it : list Resource) :
  unique_result it =
    match it with
    | [] => Normal Null
    | [r] => Normal (Present r)
    | _ :: _ :: _ => Throw (Error "Unique result expected")
    end.
Proof. by destruct it as [|r [|r' it]]. Qed.

Lemma new_actions_app (w w' : World) (l : list Dispatched) :
  dispatched w' = dispatched w ++ l -> new_actions w w' = action <$> l.
Proof. intros H. unfold new_actions. by rewrite H, drop_app_length. Qed.

Lemma last_dispatch_app (w : World) (query : loc) (l : list Dispatched) (d : Dispatched) :
  dispatched w = l ++ [d] -> seen_at_last_dispatch query w = heap_at_dispatch d !! query.
Proof. intros H. unfold seen_at_last_dispatch. by rewrite H, last_snoc. Qed.

(** ** What [findOne] delivers *)

(** C1, as the code has it: for every findOne query the delivered result is
    determined by the number of matches. With exactly one match that resource
    is delivered, with none the value [null] is delivered, and with more than
    one the delivery fails with [new Error("Unique result expected")] and no
    resource is picked. *)
Theorem findOne_delivers_by_match_count
    (w : World) (query : loc) (fields : gmap string val) (it : list Resource) :
  heap w !! query = Some fields ->
  findOne_delivers query w it =
    match it with
    | [] => Normal Null
    | [r] => Normal (Present r)
    | _ :: _ :: _ => Throw (Error "Unique result expected")
    end.
Proof.
  intros Hq. unfold findOne_delivers.
  rewrite (findOne_run w query fields Hq). cbn.
  apply unique_result_cases.
Qed.

Lemma findOne_delivers_by_match_count_witness :
  heap Sample.world !! 2%positive = Some ({[ "queryId" := VStr "q2"; "type" := VStr "article";
                                             "queryType" := VStr "getOne" ]})
  /\ findOne_delivers 2%positive Sample.world [Sample.article "1"]
     = Normal (Present (Sample.article "1")).
Proof.
  split; [reflexivity |].
  apply (findOne_delivers_by_match_count Sample.world 2%positive
           {[ "queryId" := VStr "q2"; "type" := VStr "article";
              "queryType" := VStr "getOne" ]} [Sample.article "1"]).
  reflexivity.
Defined.

(** C1 as the spec words it fails: two matches make the delivery fail with a
    plain [Error], whose name is not AmbiguousResultError. *)
Lemma findOne_ambiguous_not_AmbiguousResultError :
  findOne_delivers 2%positive Sample.world [Sample.article "1"; Sample.article "2"]
  = Throw (Error "Unique result expected")
  /\ ~ (exists e,
         findOne_delivers 2%positive Sample.world [Sample.article "1"; Sample.article "2"]
         = Throw e
         /\ Js.name e = "AmbiguousResultError").
Proof.
  assert (H : findOne_delivers 2%positive Sample.world
                [Sample.article "1"; Sample.article "2"]
              = Throw (Error "Unique result expected")).
  { erewrite findOne_delivers_by_match_count; reflexivity. }
  split; [exact H |].
  intros (e & He & Hname). rewrite H in He.
  injection He as <-. discriminate Hname.
Qed.

(** ** The query type is assigned, not asserted *)

(** C2, as the code has it: findOne sets the queryType of the supplied query
    to getOne, and findMany sets it to getMany, before the query is handed to
    the store; nothing is asserted, so a query object with any queryType is
    accepted. The store is handed exactly one action, the read intent that
    refers to the query object, and at that moment the object already carries
    the operation's own query type. *)
Theorem find_sets_queryType
    (w : World) (query : loc) (fields : gmap string val) :
  heap w !! query = Some fields ->
  (is_normal (findOne query w).1 = true
   /\ dispatched (findOne query w).2
      = dispatched w
        ++ [{| action := ApiReadInitAction {| payload_jsonApiData := VUndefined;
                                              payload_query := VRef query |};
               heap_at_dispatch :=
                 <[query := <["queryType" := VStr "getOne"]> fields]> (heap w) |}]
   /\ (seen_at_last_dispatch query (findOne query w).2 ≫= (.!! "queryType"))
      = Some (VStr "getOne"))
  /\ (is_normal (findMany query w).1 = true
      /\ dispatched (findMany query w).2
         = dispatched w
           ++ [{| action := ApiReadInitAction {| payload_jsonApiData := VUndefined;
                                                 payload_query := VRef query |};
                  heap_at_dispatch :=
                    <[query := <["queryType" := VStr "getMany"]> fields]> (heap w) |}]
      /\ (seen_at_last_dispatch query (findMany query w).2 ≫= (.!! "queryType"))
         = Some (VStr "getMany")).
Proof.
  intros Hq. split.
  - rewrite (findOne_run w query fields Hq). cbn. split; [done |]. split; [done |].
    erewrite last_dispatch_app by (cbn; reflexivity). cbn.
    rewrite lookup_insert_eq. cbn. by rewrite lookup_insert_eq.
  - rewrite (findMany_run w query fields Hq). cbn. split; [done |]. split; [done |].
    erewrite last_dispatch_app by (cbn; reflexivity). cbn.
    rewrite lookup_insert_eq. cbn. by rewrite lookup_insert_eq.
Qed.

Lemma find_sets_queryType_witness :
  dispatched (findOne 1%positive Sample.world).2
  = [{| action := ApiReadInitAction {| payload_jsonApiData := VUndefined;
                                       payload_query := VRef 1%positive |};
        heap_at_dispatch :=
          <[1%positive := <["queryType" := VStr "getOne"]>
                            {[ "queryId" := VStr "q1"; "type" := VStr "article";
                               "queryType" := VStr "getMany" ]}]> Sample.objects |}]
  /\ (seen_at_last_dispatch 1%positive (findOne 1%positive Sample.world).2
        ≫= (.!! "queryType"))
     = Some (VStr "getOne").
Proof.
  exact (proj2 (proj1 (find_sets_queryType Sample.world 1%positive
                         {[ "queryId" := VStr "q1"; "type" := VStr "article";
                            "queryType" := VStr "getMany" ]} eq_refl))).
Defined.

(** C2 as the spec words it fails: a getMany query handed to findOne, and a
    getOne query handed to findMany, are accepted without any error. *)
Lemma find_accepts_mismatched_queryType :
  ((heap Sample.world !! 1%positive) ≫= (.!! "queryType")) = Some (VStr "getMany")
  /\ is_normal (findOne 1%positive Sample.world).1 = true
  /\ ((heap Sample.world !! 2%positive) ≫= (.!! "queryType")) = Some (VStr "getOne")
  /\ is_normal (findMany 2%positive Sample.world).1 = true.
Proof.
  split; [reflexivity |]. split.
  - erewrite findOne_run by reflexivity. reflexivity.
  - split; [reflexivity |]. erewrite findMany_run by reflexivity. reflexivity.
Qed.

(** C10: findOne and findMany overwrite the queryType field of the caller's
    query object in place, before the read intent is dispatched, whatever the
    caller had put there; every other field of that object, and every other
    object, is left as it was, and the one action dispatched is the read
    intent that refers to the same object. *)
Theorem find_overwrites_queryType_in_place
    (w : World) (query : loc) (fields : gmap string val) :
  heap w !! query = Some fields ->
  (let w' := (findOne query w).2 in
   heap w' !! query = Some (<["queryType" := VStr "getOne"]> fields)
   /\ (forall k, k <> "queryType" -> (heap w' !! query ≫= (.!! k)) = fields !! k)
   /\ (forall l, l <> query -> heap w' !! l = heap w !! l)
   /\ seen_at_last_dispatch query w' = Some (<["queryType" := VStr "getOne"]> fields)
   /\ new_actions w w' = [ApiReadInitAction {| payload_jsonApiData := VUndefined;
                                               payload_query := VRef query |}])
  /\ (let w' := (findMany query w).2 in
      heap w' !! query = Some (<["queryType" := VStr "getMany"]> fields)
      /\ (forall k, k <> "queryType" -> (heap w' !! query ≫= (.!! k)) = fields !! k)
      /\ (forall l, l <> query -> heap w' !! l = heap w !! l)
      /\ seen_at_last_dispatch query w' = Some (<["queryType" := VStr "getMany"]> fields)
      /\ new_actions w w' = [ApiReadInitAction {| payload_jsonApiData := VUndefined;
                                                  payload_query := VRef query |}]).
Proof.
  intros Hq. split.
  - rewrite (findOne_run w query fields Hq). cbn.
    repeat split.
    + by rewrite lookup_insert_eq.
    + intros k Hk. rewrite lookup_insert_eq. cbn. by rewrite lookup_insert_ne.
    + intros l Hl. by rewrite lookup_insert_ne.
    + erewrite last_dispatch_app by (cbn; reflexivity). cbn.
      by rewrite lookup_insert_eq.
    + by erewrite new_actions_app by (cbn; reflexivity).
  - rewrite (findMany_run w query fields Hq). cbn.
    repeat split.
    + by rewrite lookup_insert_eq.
    + intros k Hk. rewrite lookup_insert_eq. cbn. by rewrite lookup_insert_ne.
    + intros l Hl. by rewrite lookup_insert_ne.
    + erewrite last_dispatch_app by (cbn; reflexivity). cbn.
      by rewrite lookup_insert_eq.
    + by erewrite new_actions_app by (cbn; reflexivity).
Qed.

Lemma find_overwrites_queryType_in_place_witness :
  heap (findOne 1%positive Sample.world).2 !! 1%positive
  = Some (<["queryType" := VStr "getOne"]>
            ({[ "queryId" := VStr "q1"; "type" := VStr "article";
                "queryType" := VStr "getMany" ]} : gmap string val)).
Proof.
  apply (find_overwrites_queryType_in_place Sample.world 1%positive
           {[ "queryId" := VStr "q1"; "type" := VStr "article";
              "queryType" := VStr "getMany" ]}).
  reflexivity.
Defined.

(** ** Snapshot lookups *)

Section SnapshotLookups.

Context {rt : Runtime}.

Lemma resourceSnapshotOf_in_store (st : NgrxJsonApiStore) (identifier : ResourceIdentifier) :
  stays_in_store st identifier = true ->
  resourceSnapshotOf (Present st) identifier =
    Normal (match data st !! type identifier with
            | Some byId =>
                match byId !! id identifier with
                | Some entry => slot_map inl (resource entry)
                | None => Null
                end
            | None => Null
            end).
Proof.
  unfold stays_in_store, inherits_truthy, resourceSnapshotOf, entry_guard.
  cbn. unfold lookup_property.
  destruct (data st !! type identifier) as [byId|]; cbn.
  - unfold lookup_property.
    destruct (byId !! id identifier) as [entry|]; cbn; [done |].
    destruct (inherited (id identifier)) as [| |b]; cbn; [done | done |].
    by intros ->%negb_true_iff.
  - destruct (inherited (type identifier)) as [| |b]; cbn; [done | done |].
    by intros ->%negb_true_iff.
Qed.

Lemma persistedResourceSnapshotOf_in_store
    (st : NgrxJsonApiStore) (identifier : ResourceIdentifier) :
  stays_in_store st identifier = true ->
  persistedResourceSnapshotOf (Present st) identifier =
    Normal (match data st !! type identifier with
            | Some byId =>
                match byId !! id identifier with
                | Some entry => slot_map inl (persistedResource entry)
                | None => Null
                end
            | None => Null
            end).
Proof.
  unfold stays_in_store, inherits_truthy, persistedResourceSnapshotOf, entry_guard.
  cbn. unfold lookup_property.
  destruct (data st !! type identifier) as [byId|]; cbn.
  - unfold lookup_property.
    destruct (byId !! id identifier) as [entry|]; cbn; [done |].
    destruct (inherited (id identifier)) as [| |b]; cbn; [done | done |].
    by intros ->%negb_true_iff.
  - destruct (inherited (type identifier)) as [| |b]; cbn; [done | done |].
    by intros ->%negb_true_iff.
Qed.

(** The two getters walk the same path and differ in the field they read
    at its end. *)
Lemma snapshots_agree (st : NgrxJsonApiStore) (identifier : ResourceIdentifier) :
  (forall byId entry,
      data st !! type identifier = Some byId ->
      byId !! id identifier = Some entry ->
      resource entry = persistedResource entry) ->
  resourceSnapshotOf (Present st) identifier
  = persistedResourceSnapshotOf (Present st) identifier.
Proof.
  intros Hentry.
  unfold resourceSnapshotOf, persistedResourceSnapshotOf, entry_guard.
  cbn. unfold lookup_property.
  destruct (data st !! type identifier) as [byId|]; cbn.
  - unfold lookup_property.
    destruct (byId !! id identifier) as [entry|] eqn:He; cbn.
    + by rewrite (Hentry byId entry eq_refl He).
    + destruct (inherited (id identifier)) as [| |b]; cbn; [done | done |].
      destruct (builtin_truthy b); cbn; [| done].
      by rewrite builtin_no_resource, builtin_no_persistedResource.
  - destruct (inherited (type identifier)) as [| |b]; cbn; [done | done |].
    destruct (builtin_truthy b); cbn; [| done].
    destruct (builtin_get b (id identifier)) as [[| |b2]|e]; cbn; try done.
    destruct (builtin_truthy b2); cbn; [| done].
    by rewrite builtin_no_resource, builtin_no_persistedResource.
Qed.

Lemma persisted_ignores_current (st : NgrxJsonApiStore)
    (edited identifier : ResourceIdentifier) (cur : slot Resource) :
  persistedResourceSnapshotOf (Present (set_current edited cur st)) identifier
  = persistedResourceSnapshotOf (Present st) identifier.
Proof.
  unfold persistedResourceSnapshotOf, entry_guard, set_current.
  cbn. unfold lookup_property. rewrite lookup_alter.
  case_decide as Ht.
  - rewrite <- Ht.
    destruct (data st !! type edited) as [byId|]; cbn; [| done].
    unfold lookup_property. rewrite lookup_alter.
    case_decide as Hi; [| done].
    rewrite <- Hi. by destruct (byId !! id edited).
  - done.
Qed.

(** C3, as the code has it: once the store has emitted a state,
    getResourceSnapshot does not throw for an identifier whose lookup stays
    within the store's own data; it returns the current resource of the entry
    when the identifier's type and id are both present in the snapshot, and
    [null] when the type, or the id under a present type, is not found. Before
    the store has emitted, the snapshot is [undefined] and the call throws a
    TypeError. In both cases the program state is left as it was. *)
Theorem getResourceSnapshot_once_emitted
    (identifier : ResourceIdentifier) (w : World) (st : NgrxJsonApiStore) :
  (storeSnapshot w = Present st ->
   stays_in_store st identifier = true ->
   getResourceSnapshot identifier w =
     (Normal (match data st !! type identifier with
              | Some byId =>
                  match byId !! id identifier with
                  | Some entry => slot_map inl (resource entry)
                  | None => Null
                  end
              | None => Null
              end), w))
  /\ (storeSnapshot w = Undefined ->
      getResourceSnapshot identifier w =
        (Throw (TypeError "Cannot read property of undefined"), w)).
Proof.
  unfold getResourceSnapshot, gets, lift. cbn -[resourceSnapshotOf]. split.
  - intros -> Hstays. by rewrite resourceSnapshotOf_in_store.
  - by intros ->.
Qed.

(** C4, as the code has it: once the store has emitted a state,
    getPersistedResourceSnapshot returns, for an identifier whose lookup stays
    within the store's own data, the persisted resource of the entry when the
    identifier is known to the store and [null] when it is not; for every
    identifier the answer is the same after the current state of any entry
    has been changed to anything else. Before the store has emitted, the call
    throws a TypeError. *)
Theorem getPersistedResourceSnapshot_once_emitted
    (identifier : ResourceIdentifier) (w : World) (st : NgrxJsonApiStore) :
  (storeSnapshot w = Present st ->
   stays_in_store st identifier = true ->
   getPersistedResourceSnapshot identifier w =
     (Normal (match data st !! type identifier with
              | Some byId =>
                  match byId !! id identifier with
                  | Some entry => slot_map inl (persistedResource entry)
                  | None => Null
                  end
              | None => Null
              end), w))
  /\ (storeSnapshot w = Present st ->
      forall (edited : ResourceIdentifier) (cur : slot Resource),
        (getPersistedResourceSnapshot identifier
           (with_snapshot (set_current edited cur st) w)).1
        = (getPersistedResourceSnapshot identifier w).1)
  /\ (storeSnapshot w = Undefined ->
      getPersistedResourceSnapshot identifier w =
        (Throw (TypeError "Cannot read property of undefined"), w)).
Proof.
  unfold getPersistedResourceSnapshot, gets, lift.
  cbn -[persistedResourceSnapshotOf]. split; [| split].
  - intros -> Hstays. by rewrite persistedResourceSnapshotOf_in_store.
  - intros -> edited cur. cbn -[persistedResourceSnapshotOf].
    by rewrite persisted_ignores_current.
  - by intros ->.
Qed.

End SnapshotLookups.

Lemma getResourceSnapshot_once_emitted_witness :
  @getResourceSnapshot Sample.runtime {| type := "article"; id := "2" |} Sample.world
  = (Normal Null, Sample.world).
Proof.
  apply (proj1 (@getResourceSnapshot_once_emitted Sample.runtime
                  {| type := "article"; id := "2" |} Sample.world Sample.cached));
    reflexivity.
Defined.

(** C3 as the spec words it fails: an id that plain objects inherit passes
    the guard and the call returns [undefined], neither a resource nor
    [null]; and before the store has emitted, the call throws. *)
Lemma getResourceSnapshot_undefined_or_throws :
  (@getResourceSnapshot Sample.runtime
     {| type := "article"; id := "constructor" |} Sample.world).1
  = Normal Undefined
  /\ (@getResourceSnapshot Sample.runtime
        {| type := "article"; id := "1" |} Sample.unemitted).1
     = Throw (TypeError "Cannot read property of undefined").
Proof. split; reflexivity. Qed.

Lemma getPersistedResourceSnapshot_once_emitted_witness :
  @getPersistedResourceSnapshot Sample.runtime
    {| type := "article"; id := "1" |} Sample.world
  = (Normal (Present (inl (Sample.article "1"))), Sample.world).
Proof.
  apply (proj1 (@getPersistedResourceSnapshot_once_emitted Sample.runtime
                  {| type := "article"; id := "1" |} Sample.world Sample.cached));
    reflexivity.
Defined.

(** C4 as the spec words it fails: for an identifier unknown to the store
    whose type is a name plain objects inherit, the call returns [undefined],
    not [null]; and before the store has emitted, the call throws. *)
Lemma getPersistedResourceSnapshot_undefined_or_throws :
  (@getPersistedResourceSnapshot Sample.runtime
     {| type := "toString"; id := "name" |} Sample.world).1
  = Normal Undefined
  /\ (@getPersistedResourceSnapshot Sample.runtime
        {| type := "article"; id := "1" |} Sample.unemitted).1
     = Throw (TypeError "Cannot read property of undefined").
Proof. split; reflexivity. Qed.

(** ** Dispatching *)

Lemma staging_calls_run (cs : list StagingCall) (w : World) :
  exists l : list Dispatched,
    staging_calls cs w =
      (Normal tt,
       {| heap := heap w; storeSnapshot := storeSnapshot w;
          storeLocation := storeLocation w; dispatched := dispatched w ++ l |})
    /\ length l = length cs
    /\ Forall (fun d => is_api_intent (action d) = false) l.
Proof.
  revert w. induction cs as [|c cs IH]; intros w.
  - exists []. cbn. rewrite app_nil_r. by destruct w.
  - cbn.
    set (w1 := (staging_call c w).2).
    assert (Hc : exists a, is_api_intent a = false
                 /\ staging_call c w =
                    (Normal tt,
                     {| heap := heap w; storeSnapshot := storeSnapshot w;
                        storeLocation := storeLocation w;
                        dispatched := dispatched w
                                      ++ [{| action := a; heap_at_dispatch := heap w |}] |})).
    { destruct c; eexists; (split; [| reflexivity]); reflexivity. }
    destruct Hc as (a & Ha & Hc). rewrite Hc.
    match goal with |- context [staging_calls cs ?w'] => destruct (IH w') as (l & Hl & Hlen & Hall) end.
    cbn in Hl.
    exists ({| action := a; heap_at_dispatch := heap w |} :: l).
    rewrite Hl. split; [| split].
    + by rewrite <- app_assoc.
    + cbn. by rewrite Hlen.
    + by constructor.
Qed.

(** C6: patchResource, postResource and deleteResource each dispatch exactly
    one action, the store-level PatchStoreResourceAction,
    PostStoreResourceAction and DeleteStoreResourceAction respectively, none
    of which is a remote-API intent; whatever run of these calls is made, no
    remote-API intent is dispatched, and the first one is the
    ApiCommitInitAction that commit() dispatches. *)
Theorem staging_dispatches_no_api_intent :
  (forall (r : Resource) (w : World),
      (patchResource r w).1 = Normal tt
      /\ new_actions w (patchResource r w).2 = [PatchStoreResourceAction r]
      /\ is_api_intent (PatchStoreResourceAction r) = false)
  /\ (forall (r : Resource) (w : World),
         (postResource r w).1 = Normal tt
         /\ new_actions w (postResource r w).2 = [PostStoreResourceAction r]
         /\ is_api_intent (PostStoreResourceAction r) = false)
  /\ (forall (i : ResourceIdentifier) (w : World),
         (deleteResource i w).1 = Normal tt
         /\ new_actions w (deleteResource i w).2 = [DeleteStoreResourceAction i]
         /\ is_api_intent (DeleteStoreResourceAction i) = false)
  /\ (forall (cs : list StagingCall) (w : World),
         length (new_actions w (staging_calls cs w).2) = length cs
         /\ Forall (fun a => is_api_intent a = false)
                   (new_actions w (staging_calls cs w).2))
  /\ (forall w : World,
         new_actions w (commit w).2 = [ApiCommitInitAction (storeLocation w)]
         /\ is_api_intent (ApiCommitInitAction (storeLocation w)) = true).
Proof.
  repeat split.
  - by erewrite new_actions_app by (cbn; reflexivity).
  - by erewrite new_actions_app by (cbn; reflexivity).
  - by erewrite new_actions_app by (cbn; reflexivity).
  - destruct (staging_calls_run cs w) as (l & Hl & Hlen & _). rewrite Hl.
    erewrite new_actions_app by (cbn; reflexivity).
    by rewrite length_fmap.
  - destruct (staging_calls_run cs w) as (l & Hl & _ & Hall). rewrite Hl.
    erewrite new_actions_app by (cbn; reflexivity).
    by apply Forall_fmap.
  - by erewrite new_actions_app by (cbn; reflexivity).
Qed.

(** C7: create, read, update and delete each hand the store exactly one
    action, the ApiCreateInitAction, ApiReadInitAction, ApiUpdateInitAction
    and ApiDeleteInitAction respectively, carrying the given payload, and
    change nothing else: the object heap and the cached store snapshot are
    what they were. *)
Theorem crud_forwards_one_intent (payload : Payload) (w : World) :
  (create payload w =
     (Normal tt,
      {| heap := heap w; storeSnapshot := storeSnapshot w;
         storeLocation := storeLocation w;
         dispatched := dispatched w ++ [{| action := ApiCreateInitAction payload;
                                           heap_at_dispatch := heap w |}] |})
   /\ new_actions w (create payload w).2 = [ApiCreateInitAction payload])
  /\ (read payload w =
        (Normal tt,
         {| heap := heap w; storeSnapshot := storeSnapshot w;
            storeLocation := storeLocation w;
            dispatched := dispatched w ++ [{| action := ApiReadInitAction payload;
                                              heap_at_dispatch := heap w |}] |})
      /\ new_actions w (read payload w).2 = [ApiReadInitAction payload])
  /\ (update payload w =
        (Normal tt,
         {| heap := heap w; storeSnapshot := storeSnapshot w;
            storeLocation := storeLocation w;
            dispatched := dispatched w ++ [{| action := ApiUpdateInitAction payload;
                                              heap_at_dispatch := heap w |}] |})
      /\ new_actions w (update payload w).2 = [ApiUpdateInitAction payload])
  /\ (delete payload w =
        (Normal tt,
         {| heap := heap w; storeSnapshot := storeSnapshot w;
            storeLocation := storeLocation w;
            dispatched := dispatched w ++ [{| action := ApiDeleteInitAction payload;
                                              heap_at_dispatch := heap w |}] |})
      /\ new_actions w (delete payload w).2 = [ApiDeleteInitAction payload]).
Proof.
  repeat split; by erewrite new_actions_app by (cbn; reflexivity).
Qed.

(** ** The pending-change tracker *)

Section Stage.

Import Core.

Variable f : option PendingChangeRecord -> option PendingChangeRecord.
Variable i : ResourceIdentifier.
Hypothesis f_keeps_identifier :
  forall old c,
    from_option (fun c0 => record_identifier c0 = i) True old ->
    f old = Some c -> record_identifier c = i.

Lemma stage_identifiers (t : list PendingChangeRecord) (j : ResourceIdentifier) :
  j ∈ record_identifier <$> stage f i t ->
  j = i \/ j ∈ record_identifier <$> t.
Proof using f_keeps_identifier.
  induction t as [|c t IH]; cbn.
  - destruct (f None) as [c'|] eqn:Hf; cbn; [| by right].
    rewrite list_elem_of_singleton. intros ->. left.
    by apply (f_keeps_identifier None).
  - case_bool_decide as Hc.
    + destruct (f (Some c)) as [c'|] eqn:Hf; cbn.
      * rewrite !elem_of_cons.
        intros [-> | Hj]; [left | by right; right].
        by apply (f_keeps_identifier (Some c)).
      * intros Hj. right. by apply elem_of_cons; right.
    + cbn. rewrite !elem_of_cons. intros [-> | Hj]; [by right; left |].
      destruct (IH Hj) as [-> | Hj']; [by left | by right; right].
Qed.

Lemma stage_NoDup (t : list PendingChangeRecord) :
  NoDup (record_identifier <$> t) ->
  NoDup (record_identifier <$> stage f i t).
Proof using f_keeps_identifier.
  induction t as [|c t IH]; cbn.
  - intros _. destruct (f None); cbn; [apply NoDup_singleton | constructor].
  - rewrite NoDup_cons. intros [Hc Ht].
    case_bool_decide as Hci.
    + destruct (f (Some c)) as [c'|] eqn:Hf; cbn; [| done].
      apply NoDup_cons. split; [| done].
      by rewrite (f_keeps_identifier (Some c) c' Hci Hf), <- Hci.
    + cbn. apply NoDup_cons. split; [| by apply IH].
      intros Hin. destruct (stage_identifiers _ _ Hin) as [Heq | Hin']; done.
Qed.

Lemma lookup_pending_absent (t : list PendingChangeRecord) :
  i ∉ record_identifier <$> t -> lookup_pending i t = None.
Proof.
  induction t as [|c t IH]; cbn; [done |].
  rewrite not_elem_of_cons. intros [Hc Ht].
  rewrite bool_decide_false by done. by apply IH.
Qed.

Lemma lookup_pending_stage (t : list PendingChangeRecord) :
  NoDup (record_identifier <$> t) ->
  lookup_pending i (stage f i t) = f (lookup_pending i t).
Proof using f_keeps_identifier.
  induction t as [|c t IH]; cbn.
  - intros _. destruct (f None) as [c'|] eqn:Hf; cbn; [| done].
    by rewrite bool_decide_true by (by apply (f_keeps_identifier None)).
  - rewrite NoDup_cons. intros [Hc Ht].
    case_bool_decide as Hci.
    + destruct (f (Some c)) as [c'|] eqn:Hf; cbn.
      * by rewrite bool_decide_true by (by apply (f_keeps_identifier (Some c))).
      * apply lookup_pending_absent. by rewrite <- Hci.
    + cbn. rewrite bool_decide_false by done. by apply IH.
Qed.

Lemma lookup_pending_stage_other (t : list PendingChangeRecord) (j : ResourceIdentifier) :
  j <> i -> lookup_pending j (stage f i t) = lookup_pending j t.
Proof using f_keeps_identifier.
  intros Hj. induction t as [|c t IH]; cbn.
  - destruct (f None) as [c'|] eqn:Hf; cbn; [| done].
    rewrite bool_decide_false; [done |].
    rewrite (f_keeps_identifier None c' I Hf). congruence.
  - case_bool_decide as Hci.
    + rewrite bool_decide_false by congruence.
      destruct (f (Some c)) as [c'|] eqn:Hf; cbn; [| done].
      rewrite bool_decide_false; [done |].
      rewrite (f_keeps_identifier (Some c) c' Hci Hf). congruence.
    + cbn. destruct (bool_decide (record_identifier c = j)); [done | apply IH].
Qed.

Lemma stage_length (t : list PendingChangeRecord) :
  is_Some (lookup_pending i t) ->
  (forall old, is_Some (f (Some old))) ->
  length (stage f i t) = length t.
Proof.
  intros Hsome Hf. induction t as [|c t IH]; cbn in *.
  - by destruct Hsome.
  - case_bool_decide as Hci.
    + by destruct (Hf c) as [c' ->].
    + cbn. by rewrite IH.
Qed.

End Stage.

Lemma count_pending_NoDup (i : ResourceIdentifier) (t : list Core.PendingChangeRecord) :
  NoDup (Core.record_identifier <$> t) ->
  Core.count_pending i t =
    match Core.lookup_pending i t with Some _ => 1%nat | None => 0%nat end.
Proof.
  unfold Core.count_pending.
  induction t as [|c t IH]; cbn; [done |].
  rewrite NoDup_cons. intros [Hc Ht].
  case_bool_decide as Hci; cbn.
  - rewrite IH by done.
    rewrite lookup_pending_absent; [done |]. by rewrite <- Hci.
  - by apply IH.
Qed.

Lemma stage_one_NoDup (t : list Core.PendingChangeRecord) (c : Core.Staging) :
  NoDup (Core.record_identifier <$> t) ->
  NoDup (Core.record_identifier <$> Core.stage_one t c).
Proof.
  destruct c as [r | i attrs rels | i]; cbn; apply stage_NoDup.
  - by intros old c _ [= <-].
  - intros [[r | i0 attrs0 rels0 | i0]|] c Hold [= <-]; done.
  - intros [[r | i0 attrs0 rels0 | i0]|] c Hold [= <-]; done.
Qed.

Lemma stage_all_NoDup (cs : list Core.Staging) :
  NoDup (Core.record_identifier <$> Core.stage_all cs).
Proof.
  unfold Core.stage_all.
  assert (H : forall t, NoDup (Core.record_identifier <$> t) ->
                        NoDup (Core.record_identifier <$> foldl Core.stage_one t cs)).
  { induction cs as [|c cs IH]; cbn; [done |].
    intros t Ht. apply IH. by apply stage_one_NoDup. }
  apply H. constructor.
Qed.

Lemma delete_requests_pending (i : ResourceIdentifier) (t : list Core.PendingChangeRecord) :
  i ∈ Core.delete_requests t -> is_Some (Core.lookup_pending i t).
Proof.
  unfold Core.delete_requests.
  induction t as [|c t IH]; cbn; [by intros ?%elem_of_nil |].
  case_bool_decide as Hci; [by eauto |].
  destruct (Core.is_delete c); cbn; [| done].
  rewrite elem_of_cons. intros [-> | Hin]; [done | by apply IH].
Qed.

Lemma stagePatch_keeps_identifier (i : ResourceIdentifier) (attrs : gmap string val)
    (rels : gmap string (list ResourceIdentifier))
    (old : option Core.PendingChangeRecord) (c : Core.PendingChangeRecord) :
  from_option (fun c0 => Core.record_identifier c0 = i) True old ->
  match old with
  | Some (Core.Create r) => Some (Core.Create (Core.merge_fields r attrs rels))
  | Some (Core.Patch _ attrs0 rels0) => Some (Core.Patch i (attrs ∪ attrs0) (rels ∪ rels0))
  | Some (Core.Delete _) => Some (Core.Delete i)
  | None => Some (Core.Patch i attrs rels)
  end = Some c ->
  Core.record_identifier c = i.
Proof. destruct old as [[r | i0 attrs0 rels0 | i0]|]; intros Hold [= <-]; done. Qed.

Lemma stageDelete_keeps_identifier (i : ResourceIdentifier)
    (old : option Core.PendingChangeRecord) (c : Core.PendingChangeRecord) :
  from_option (fun c0 => Core.record_identifier c0 = i) True old ->
  match old with
  | Some (Core.Create _) => None
  | _ => Some (Core.Delete i)
  end = Some c ->
  Core.record_identifier c = i.
Proof. destruct old as [[r | i0 attrs0 rels0 | i0]|]; intros Hold [= <-]; done. Qed.

(** C9: the tracker holds at most one pending record per identifier after
    any run of staging requests. A Patch staged on top of a pending Create or
    Patch is merged into that record and adds none; a Delete staged on top of
    a pending Patch replaces it; a Delete staged on top of a pending Create
    leaves no record for the identifier at all, so no delete request exists
    for it. *)
Theorem tracker_one_record_per_identifier (cs : list Core.Staging) :
  let t := Core.stage_all cs in
  (forall i, Core.count_pending i t <= 1)
  /\ (forall i attrs rels r,
        Core.lookup_pending i t = Some (Core.Create r) ->
        Core.lookup_pending i (Core.stagePatch i attrs rels t)
        = Some (Core.Create (Core.merge_fields r attrs rels))
        /\ length (Core.stagePatch i attrs rels t) = length t)
  /\ (forall i attrs rels i0 attrs0 rels0,
        Core.lookup_pending i t = Some (Core.Patch i0 attrs0 rels0) ->
        Core.lookup_pending i (Core.stagePatch i attrs rels t)
        = Some (Core.Patch i (attrs ∪ attrs0) (rels ∪ rels0))
        /\ length (Core.stagePatch i attrs rels t) = length t)
  /\ (forall i i0 attrs0 rels0,
        Core.lookup_pending i t = Some (Core.Patch i0 attrs0 rels0) ->
        Core.lookup_pending i (Core.stageDelete i t) = Some (Core.Delete i)
        /\ Core.count_pending i (Core.stageDelete i t) = 1%nat)
  /\ (forall i r,
        Core.lookup_pending i t = Some (Core.Create r) ->
        Core.lookup_pending i (Core.stageDelete i t) = None
        /\ Core.count_pending i (Core.stageDelete i t) = 0%nat
        /\ i ∉ Core.delete_requests (Core.stageDelete i t)).
Proof.
  intros t.
  assert (Ht : NoDup (Core.record_identifier <$> t)) by apply stage_all_NoDup.
  assert (Hpatch : forall i attrs rels,
             Core.lookup_pending i (Core.stagePatch i attrs rels t) = _)
    by (intros i attrs rels;
        exact (lookup_pending_stage _ i (stagePatch_keeps_identifier i attrs rels) t Ht)).
  assert (Hdelete : forall i, Core.lookup_pending i (Core.stageDelete i t) = _)
    by (intros i; exact (lookup_pending_stage _ i (stageDelete_keeps_identifier i) t Ht)).
  assert (Hnodup : forall i, NoDup (Core.record_identifier <$> Core.stageDelete i t))
    by (intros i; exact (stage_NoDup _ i (stageDelete_keeps_identifier i) t Ht)).
  split; [| split; [| split; [| split]]].
  - intros i. rewrite count_pending_NoDup by done.
    destruct (Core.lookup_pending i t); lia.
  - intros i attrs rels r Hi. split.
    + by rewrite Hpatch, Hi.
    + apply stage_length; [by rewrite Hi |].
      intros [r0 | i0 attrs0 rels0 | i0]; done.
  - intros i attrs rels i0 attrs0 rels0 Hi. split.
    + by rewrite Hpatch, Hi.
    + apply stage_length; [by rewrite Hi |].
      intros [r0 | i1 attrs1 rels1 | i1]; done.
  - intros i i0 attrs0 rels0 Hi.
    assert (Hl : Core.lookup_pending i (Core.stageDelete i t) = Some (Core.Delete i))
      by (by rewrite Hdelete, Hi).
    split; [done |].
    by rewrite count_pending_NoDup, Hl.
  - intros i r Hi.
    assert (Hl : Core.lookup_pending i (Core.stageDelete i t) = None)
      by (by rewrite Hdelete, Hi).
    split; [done |]. split.
    + by rewrite count_pending_NoDup, Hl.
    + intros Hin. apply delete_requests_pending in Hin.
      rewrite Hl in Hin. by destruct Hin.
Qed.

Lemma tracker_one_record_per_identifier_witness :
  Core.lookup_pending {| type := "article"; id := "1" |}
    (Core.stage_all [Core.StageCreate (Sample.article "1")])
  = Some (Core.Create (Sample.article "1"))
  /\ Core.lookup_pending {| type := "article"; id := "1" |}
       (Core.stageDelete {| type := "article"; id := "1" |}
          (Core.stage_all [Core.StageCreate (Sample.article "1")]))
     = None.
Proof.
  split; [reflexivity |].
  apply (tracker_one_record_per_identifier [Core.StageCreate (Sample.article "1")])
    with (r := Sample.article "1").
  reflexivity.
Defined.

(** ** Current and persisted state under [upsertPersisted] *)

Lemma lookup_entry_insert (i j : ResourceIdentifier) (e : ResourceStore)
    (st : NgrxJsonApiStore) :
  Core.lookup_entry (Core.insert_entry i e st) j
  = if decide (j = i) then Some e else Core.lookup_entry st j.
Proof.
  unfold Core.lookup_entry, Core.insert_entry. cbn.
  destruct i as [ti ii], j as [tj ij]. cbn.
  destruct (decide (tj = ti)) as [-> | Ht].
  - rewrite lookup_insert_eq.
    destruct (decide (ij = ii)) as [-> | Hi].
    + rewrite lookup_insert_eq. by rewrite decide_True.
    + rewrite lookup_insert_ne by done.
      rewrite decide_False by congruence.
      by destruct (data st !! ti).
  - rewrite lookup_insert_ne by done.
    by rewrite decide_False by congruence.
Qed.

Lemma consistent_initial : Core.consistent Core.initial.
Proof. intros i e He. unfold Core.lookup_entry in He. cbn in He. done. Qed.

Lemma upsertPersisted_consistent (r : Resource) (s : Core.State) :
  Core.consistent s -> Core.consistent (Core.upsertPersisted r s).
Proof.
  intros Hs i e. unfold Core.upsertPersisted. cbn.
  rewrite lookup_entry_insert.
  case_decide as Hi.
  - intros [= <-] Hp. subst i. cbn.
    change (Core.lookup_pending (identifier r) (Core.tracker s) = None) in Hp.
    by rewrite Hp.
  - intros He Hp. by apply (Hs i).
Qed.

Lemma upsert_all_consistent (rs : list Resource) (s : Core.State) :
  Core.consistent s ->
  Core.consistent (Core.upsert_all rs s)
  /\ Core.tracker (Core.upsert_all rs s) = Core.tracker s.
Proof.
  unfold Core.upsert_all. revert s.
  induction rs as [|r rs IH]; intros s Hs; cbn; [done |].
  destruct (IH (Core.upsertPersisted r s)) as [Hc Ht].
  - by apply upsertPersisted_consistent.
  - by split.
Qed.

(** C8: after any run of upsertPersisted calls with no local edit in
    between, on a cache in which every resource without a pending edit had
    its current state equal to its persisted state, getResourceSnapshot and
    getPersistedResourceSnapshot return the same value for every identifier
    that has no pending local edit. *)
Theorem upsert_current_equals_persisted {rt : Runtime}
    (rs : list Resource) (s : Core.State) (i : ResourceIdentifier) (w : World) :
  Core.consistent s ->
  Core.lookup_pending i (Core.tracker s) = None ->
  storeSnapshot w = Present (Core.store (Core.upsert_all rs s)) ->
  (getResourceSnapshot i w).1 = (getPersistedResourceSnapshot i w).1.
Proof.
  intros Hs Hp Hw.
  destruct (upsert_all_consistent rs s Hs) as [Hc Ht].
  unfold getResourceSnapshot, getPersistedResourceSnapshot, gets, lift.
  cbn -[resourceSnapshotOf persistedResourceSnapshotOf].
  rewrite Hw. apply snapshots_agree.
  intros byId e HbyId He.
  apply (Hc i e); [| by rewrite Ht].
  unfold Core.lookup_entry. by rewrite HbyId.
Qed.

Lemma upsert_current_equals_persisted_witness :
  (@getResourceSnapshot Sample.runtime {| type := "article"; id := "1" |}
     (with_snapshot
        (Core.store (Core.upsert_all [Sample.article "1"; Sample.article "2"] Core.initial))
        Sample.world)).1
  = (@getPersistedResourceSnapshot Sample.runtime {| type := "article"; id := "1" |}
       (with_snapshot
          (Core.store (Core.upsert_all [Sample.article "1"; Sample.article "2"] Core.initial))
          Sample.world)).1.
Proof.
  apply (@upsert_current_equals_persisted Sample.runtime
           [Sample.article "1"; Sample.article "2"] Core.initial).
  - exact consistent_initial.
  - reflexivity.
  - reflexivity.
Defined.

(** ** Removing a query *)

Lemma unsubscribe_run (w : World) (query : loc) (fields : gmap string val) :
  heap w !! query = Some fields ->
  (let! queryId' := get_prop query "queryId" in removeQuery queryId') w
  = (Normal tt,
     {| heap := heap w; storeSnapshot := storeSnapshot w;
        storeLocation := storeLocation w;
        dispatched :=
          dispatched w
          ++ [{| action := RemoveQueryAction (default VUndefined (fields !! "queryId"));
                 heap_at_dispatch := heap w |}] |}).
Proof. intros Hq. cbn. unfold get_prop. by rewrite Hq. Qed.

Lemma apply_event_unregistered (k : string) (s : Core.State) (e : Core.Event) :
  Core.registers k e = false ->
  Core.registry s !! k = None ->
  Core.registry (Core.apply_event s e) !! k = None.
Proof.
  destruct e as [r | c | i | k' q | k']; cbn; intros He Hk; try done.
  - apply bool_decide_eq_false in He. by rewrite lookup_insert_ne.
  - destruct (decide (k' = k)) as [-> | Hne].
    + apply lookup_delete_eq.
    + by rewrite lookup_delete_ne.
Qed.

Lemma recompute_registered
    (resolve : Core.Query -> NgrxJsonApiStore -> list ResourceIdentifier)
    (s : Core.State) (d : string * list ResourceIdentifier) :
  d ∈ Core.recompute resolve s -> is_Some (Core.registry s !! d.1).
Proof.
  unfold Core.recompute. rewrite list_elem_of_fmap.
  intros ([k q] & -> & Hin). cbn.
  apply elem_of_map_to_list in Hin. eauto.
Qed.

Lemma run_unregistered
    (resolve : Core.Query -> NgrxJsonApiStore -> list ResourceIdentifier)
    (k : string) (es : list Core.Event) (s : Core.State)
    (d : string * list ResourceIdentifier) :
  forallb (fun e => negb (Core.registers k e)) es = true ->
  Core.registry s !! k = None ->
  d ∈ Core.run resolve es s -> d.1 <> k.
Proof.
  revert s. induction es as [|e es IH]; intros s Hes Hk; cbn.
  - by intros ?%elem_of_nil.
  - cbn in Hes. apply andb_true_iff in Hes as [He Hes].
    apply negb_true_iff in He.
    pose proof (apply_event_unregistered k s e He Hk) as Hk'.
    rewrite elem_of_app. intros [Hd | Hd].
    + apply recompute_registered in Hd. intros Heq.
      rewrite Heq, Hk' in Hd. by destruct Hd.
    + by apply (IH (Core.apply_event s e)).
Qed.

(** ** Every reachable cache state is consistent *)

Lemma lookup_entry_delete (i j : ResourceIdentifier) (st : NgrxJsonApiStore) :
  Core.lookup_entry (Core.delete_entry i st) j
  = if decide (j = i) then None else Core.lookup_entry st j.
Proof.
  unfold Core.lookup_entry, Core.delete_entry. cbn.
  destruct i as [ti ii], j as [tj ij]. cbn.
  rewrite lookup_alter.
  destruct (decide (ti = tj)) as [<- | Ht].
  - destruct (data st !! ti) as [byId|] eqn:Hd; cbn.
    + destruct (decide (ij = ii)) as [-> | Hi].
      * rewrite lookup_delete_eq. by rewrite decide_True.
      * rewrite lookup_delete_ne by done. by rewrite decide_False by congruence.
    + by case_decide.
  - by rewrite decide_False by congruence.
Qed.

Lemma stage_one_lookup (t : list Core.PendingChangeRecord) (c : Core.Staging) :
  NoDup (Core.record_identifier <$> t) ->
  Core.lookup_pending (Core.staged_identifier c) (Core.stage_one t c) = None ->
  exists i r, c = Core.StageDelete i
              /\ Core.lookup_pending i t = Some (Core.Create r).
Proof.
  intros Ht.
  destruct c as [r | i attrs rels | i]; cbn [Core.stage_one Core.staged_identifier].
  - unfold Core.stageCreate. rewrite lookup_pending_stage; [done | | done].
    by intros old c _ [= <-].
  - unfold Core.stagePatch.
    rewrite lookup_pending_stage;
      [| apply stagePatch_keeps_identifier | done].
    by destruct (Core.lookup_pending i t) as [[? | ? ? ? | ?]|].
  - unfold Core.stageDelete.
    rewrite lookup_pending_stage;
      [| apply stageDelete_keeps_identifier | done].
    destruct (Core.lookup_pending i t) as [[r | ? ? ? | ?]|] eqn:Hi; try done.
    intros _. exists i, r. by split.
Qed.

Lemma stage_one_lookup_other (t : list Core.PendingChangeRecord) (c : Core.Staging)
    (j : ResourceIdentifier) :
  j <> Core.staged_identifier c ->
  Core.lookup_pending j (Core.stage_one t c) = Core.lookup_pending j t.
Proof.
  destruct c as [r | i attrs rels | i]; cbn; intros Hj.
  - apply lookup_pending_stage_other; [| done]. by intros old c _ [= <-].
  - apply lookup_pending_stage_other; [| done]. apply stagePatch_keeps_identifier.
  - apply lookup_pending_stage_other; [| done]. apply stageDelete_keeps_identifier.
Qed.

Lemma edit_current_other (pending : option Core.PendingChangeRecord) (c : Core.Staging)
    (st : NgrxJsonApiStore) (j : ResourceIdentifier) :
  j <> Core.staged_identifier c ->
  Core.lookup_entry (Core.edit_current pending c st) j = Core.lookup_entry st j.
Proof.
  destruct c as [r | i attrs rels | i]; cbn; intros Hj.
  - rewrite lookup_entry_insert. by rewrite decide_False.
  - destruct (Core.lookup_entry st i) as [[[| |cur] p]|]; try done.
    rewrite lookup_entry_insert. by rewrite decide_False.
  - destruct pending as [[r | ? ? ? | ?]|]; try done.
    rewrite lookup_entry_delete. by rewrite decide_False.
Qed.

Lemma cleared_NoDup (i : ResourceIdentifier) (t : list Core.PendingChangeRecord) :
  NoDup (Core.record_identifier <$> t) ->
  NoDup (Core.record_identifier
           <$> List.filter (fun c => negb (bool_decide (Core.record_identifier c = i))) t).
Proof.
  induction t as [|c t IH]; cbn; [done |].
  rewrite NoDup_cons. intros [Hc Ht].
  destruct (negb _); cbn; [| by apply IH].
  apply NoDup_cons. split; [| by apply IH].
  rewrite list_elem_of_fmap. intros (c' & Heq & Hin).
  apply Hc. rewrite list_elem_of_fmap. exists c'. split; [done |].
  apply list_elem_of_In in Hin. apply filter_In in Hin as [Hin _].
  by apply list_elem_of_In.
Qed.

Lemma cleared_lookup (i j : ResourceIdentifier) (t : list Core.PendingChangeRecord) :
  Core.lookup_pending j
    (List.filter (fun c => negb (bool_decide (Core.record_identifier c = i))) t)
  = if decide (j = i) then None else Core.lookup_pending j t.
Proof.
  unfold Core.lookup_pending.
  destruct (decide (j = i)) as [-> | Hji].
  - induction t as [|c t IH]; cbn; [done |].
    case_bool_decide as Hci; cbn; [done |].
    by rewrite bool_decide_false by done.
  - induction t as [|c t IH]; cbn; [done |].
    case_bool_decide as Hci; cbn.
    + by rewrite bool_decide_false by congruence.
    + by destruct (bool_decide (Core.record_identifier c = j)).
Qed.

Lemma apply_event_consistent (s : Core.State) (e : Core.Event) :
  NoDup (Core.record_identifier <$> Core.tracker s) ->
  Core.consistent s ->
  NoDup (Core.record_identifier <$> Core.tracker (Core.apply_event s e))
  /\ Core.consistent (Core.apply_event s e).
Proof.
  intros Ht Hs.
  destruct e as [r | c | i | k q | k]; cbn [Core.apply_event].
  - split; [done | by apply upsertPersisted_consistent].
  - unfold Core.applyLocalEdit, Core.consistent. cbn [Core.store Core.tracker].
    split; [by apply stage_one_NoDup |].
    intros j en Hen Hp.
    destruct (decide (j = Core.staged_identifier c)) as [-> | Hj].
    + destruct (stage_one_lookup _ _ Ht Hp) as (i & r & -> & Hi).
      cbn [Core.staged_identifier] in Hen. rewrite Hi in Hen.
      cbn [Core.edit_current] in Hen.
      rewrite lookup_entry_delete in Hen. by rewrite decide_True in Hen.
    + rewrite edit_current_other in Hen by done.
      rewrite stage_one_lookup_other in Hp by done.
      by apply (Hs j).
  - unfold Core.promoteOnCommitSuccess, Core.consistent. cbn [Core.store Core.tracker].
    split; [by apply cleared_NoDup |].
    intros j en. rewrite cleared_lookup.
    destruct (Core.lookup_entry (Core.store s) i) as [ei|] eqn:Hei.
    + rewrite lookup_entry_insert.
      case_decide as Hj; [by intros [= <-] |].
      intros Hen Hp. by apply (Hs j).
    + case_decide as Hj; [subst j; by rewrite Hei |].
      intros Hen Hp. by apply (Hs j).
  - split; [done |]. intros j en. apply Hs.
  - split; [done |]. intros j en. apply Hs.
Qed.

Lemma reachable_consistent (es : list Core.Event) :
  Core.consistent (foldl Core.apply_event Core.initial es).
Proof.
  assert (H : forall s,
             NoDup (Core.record_identifier <$> Core.tracker s) ->
             Core.consistent s ->
             Core.consistent (foldl Core.apply_event s es)).
  { induction es as [|e es IH]; cbn; [done |].
    intros s Ht Hs.
    destruct (apply_event_consistent s e Ht Hs) as [Ht' Hs'].
    by apply IH. }
  apply H; [constructor | apply consistent_initial].
Qed.


(** * Further properties of the facade *)

(** ** Streams of results *)

Lemma deliver_stream_selectResults (queryId : val) (its : list (list Resource)) :
  deliver_stream (selectResults queryId) its = Normal <$> its.
Proof. induction its as [|it its IH]; cbn; [done |]. by rewrite <- IH. Qed.

Lemma unique_result_at_most_one (it : list Resource) :
  length it <= 1 -> unique_result it = Normal (at_most_one it).
Proof. destruct it as [|r [|r' it]]; cbn; [done | done | lia]. Qed.

Lemma unique_result_ambiguous (it : list Resource) :
  2 <= length it -> unique_result it = Throw (Error "Unique result expected").
Proof. destruct it as [|r [|r' it]]; cbn; [lia | lia | done]. Qed.

Lemma deliver_stream_unique (queryId : val) (before after : list (list Resource))
    (ambiguous : list Resource) :
  Forall (fun it => length it <= 1) before ->
  2 <= length ambiguous ->
  deliver_stream (obs_map unique_result (selectResults queryId))
                 (before ++ ambiguous :: after)
  = ((fun it => Normal (at_most_one it)) <$> before)
    ++ [Throw (Error "Unique result expected")].
Proof.
  intros Hbefore Hamb. induction Hbefore as [|it before Hit _ IH].
  - cbn -[unique_result]. by rewrite unique_result_ambiguous.
  - cbn -[unique_result]. rewrite unique_result_at_most_one by done.
    cbn -[unique_result] in IH. by rewrite IH.
Qed.

(** X1: findMany passes every result array the source emits to the
    subscriber unchanged and in order, whatever its length; it never turns an
    emission into an error. *)
Theorem findMany_stream_unchanged
    (w : World) (query : loc) (fields : gmap string val) (its : list (list Resource)) :
  heap w !! query = Some fields ->
  findMany_stream query w its = Normal <$> its.
Proof.
  intros Hq. unfold findMany_stream.
  rewrite (findMany_run w query fields Hq). cbn.
  apply deliver_stream_selectResults.
Qed.

Lemma findMany_stream_unchanged_witness :
  findMany_stream 1%positive Sample.world
    [[]; [Sample.article "1"; Sample.article "2"]; [Sample.article "1"]]
  = [Normal []; Normal [Sample.article "1"; Sample.article "2"];
     Normal [Sample.article "1"]].
Proof.
  apply (findMany_stream_unchanged Sample.world 1%positive
           {[ "queryId" := VStr "q1"; "type" := VStr "article";
              "queryType" := VStr "getMany" ]}).
  reflexivity.
Defined.

(** X2: the results of findOne end at the first ambiguous emission. While
    the source emits arrays with at most one element the subscriber receives
    [null] or the resource; the first array with two or more elements is
    delivered as the error, and nothing emitted after it is delivered, not
    even a unique result. *)
Theorem findOne_stream_ends_at_ambiguity
    (w : World) (query : loc) (fields : gmap string val)
    (before after : list (list Resource)) (ambiguous : list Resource) :
  heap w !! query = Some fields ->
  Forall (fun it => length it <= 1) before ->
  2 <= length ambiguous ->
  findOne_stream query w (before ++ ambiguous :: after)
  = ((fun it => Normal (at_most_one it)) <$> before)
    ++ [Throw (Error "Unique result expected")].
Proof.
  intros Hq Hbefore Hamb. unfold findOne_stream.
  rewrite (findOne_run w query fields Hq). cbn -[deliver_stream obs_map].
  by apply deliver_stream_unique.
Qed.

Lemma findOne_stream_ends_at_ambiguity_witness :
  findOne_stream 2%positive Sample.world
    ([[]; [Sample.article "1"]]
       ++ [Sample.article "1"; Sample.article "2"] :: [[Sample.article "1"]])
  = [Normal Null; Normal (Present (Sample.article "1"));
     Throw (Error "Unique result expected")].
Proof.
  apply (findOne_stream_ends_at_ambiguity Sample.world 2%positive
           {[ "queryId" := VStr "q2"; "type" := VStr "article";
              "queryType" := VStr "getOne" ]}
           [[]; [Sample.article "1"]] [[Sample.article "1"]]
           [Sample.article "1"; Sample.article "2"]).
  - reflexivity.
  - repeat constructor.
  - cbn. lia.
Defined.

(** ** A missing query object *)

(** X3: findOne and findMany called with [null] or [undefined] in place of
    the query object throw a TypeError at the assignment of queryType, before
    anything is dispatched: the store is handed no action and the program
    state is what it was. *)
Theorem find_without_query_throws (w : World) (query : loc) :
  heap w !! query = None ->
  (findOne query w).1 = Throw (TypeError "Cannot set property of undefined")
  /\ (findOne query w).2 = w
  /\ (findMany query w).1 = Throw (TypeError "Cannot set property of undefined")
  /\ (findMany query w).2 = w
  /\ new_actions w (findOne query w).2 = []
  /\ new_actions w (findMany query w).2 = [].
Proof.
  intros Hq.
  assert (H1 : findOne query w
               = (Throw (TypeError "Cannot set property of undefined"), w)).
  { unfold findOne. cbn. unfold set_prop. by rewrite Hq. }
  assert (H2 : findMany query w
               = (Throw (TypeError "Cannot set property of undefined"), w)).
  { unfold findMany. cbn. unfold set_prop. by rewrite Hq. }
  rewrite H1, H2. cbn.
  repeat split; unfold new_actions; by rewrite drop_all.
Qed.

Lemma find_without_query_throws_witness :
  (findOne 7%positive Sample.world).1
  = Throw (TypeError "Cannot set property of undefined").
Proof.
  apply (find_without_query_throws Sample.world 7%positive).
  reflexivity.
Defined.

(** ** Unsubscribing *)

(** X4: the handle's unsubscribe reads queryId from the query object at the
    moment it is called, while the handle's results were selected with the
    queryId the object had when findOne or findMany ran. The RemoveQueryAction
    carries whatever the object holds at that later moment ([undefined] when
    it holds none), and never throws. *)
Theorem unsubscribe_reads_queryId_when_called
    (w : World) (query : loc) (fields : gmap string val)
    (w2 : World) (fields2 : gmap string val) :
  heap w !! query = Some fields ->
  heap w2 !! query = Some fields2 ->
  (results_source (findOne query w) = default VUndefined (fields !! "queryId")
   /\ (unsubscribe_in (findOne query w) w2).1 = Normal tt
   /\ new_actions w2 (unsubscribe_in (findOne query w) w2).2
      = [RemoveQueryAction (default VUndefined (fields2 !! "queryId"))])
  /\ (results_source (findMany query w) = default VUndefined (fields !! "queryId")
      /\ (unsubscribe_in (findMany query w) w2).1 = Normal tt
      /\ new_actions w2 (unsubscribe_in (findMany query w) w2).2
         = [RemoveQueryAction (default VUndefined (fields2 !! "queryId"))]).
Proof.
  intros Hq Hq2. split.
  - rewrite (findOne_run w query fields Hq). cbn -[bind new_actions].
    rewrite (unsubscribe_run w2 query fields2 Hq2).
    repeat split.
    by erewrite new_actions_app by (cbn; reflexivity).
  - rewrite (findMany_run w query fields Hq). cbn -[bind new_actions].
    rewrite (unsubscribe_run w2 query fields2 Hq2).
    repeat split.
    by erewrite new_actions_app by (cbn; reflexivity).
Qed.

Lemma unsubscribe_reads_queryId_when_called_witness :
  results_source (findOne 2%positive Sample.world) = VStr "q2"
  /\ new_actions
       {| heap := <[2%positive := {[ "queryId" := VStr "q9" ]}]> Sample.objects;
          storeSnapshot := Present Sample.cached; storeLocation := "api"; dispatched := [] |}
       (unsubscribe_in (findOne 2%positive Sample.world)
          {| heap := <[2%positive := {[ "queryId" := VStr "q9" ]}]> Sample.objects;
             storeSnapshot := Present Sample.cached; storeLocation := "api";
             dispatched := [] |}).2
     = [RemoveQueryAction (VStr "q9")].
Proof.
  pose proof (unsubscribe_reads_queryId_when_called Sample.world 2%positive
                {[ "queryId" := VStr "q2"; "type" := VStr "article";
                   "queryType" := VStr "getOne" ]}
                {| heap := <[2%positive := {[ "queryId" := VStr "q9" ]}]> Sample.objects;
                   storeSnapshot := Present Sample.cached; storeLocation := "api";
                   dispatched := [] |}
                {[ "queryId" := VStr "q9" ]} eq_refl eq_refl) as H.
  split; [exact (proj1 (proj1 H)) | exact (proj2 (proj2 (proj1 H)))].
Defined.

Lemma times_dispatch (call : M unit) (query : loc) (fields : gmap string val)
    (a : Action) :
  (forall w, heap w !! query = Some fields ->
             call w =
               (Normal tt,
                {| heap := heap w; storeSnapshot := storeSnapshot w;
                   storeLocation := storeLocation w;
                   dispatched := dispatched w
                                 ++ [{| action := a; heap_at_dispatch := heap w |}] |})) ->
  forall n w, heap w !! query = Some fields ->
    exists l, times n call w =
                (Normal tt,
                 {| heap := heap w; storeSnapshot := storeSnapshot w;
                    storeLocation := storeLocation w;
                    dispatched := dispatched w ++ l |})
              /\ action <$> l = replicate n a.
Proof.
  intros Hcall. induction n as [|n IH]; intros w Hq.
  - exists []. cbn. rewrite app_nil_r. by destruct w.
  - cbn. rewrite (Hcall w Hq).
    match goal with
    | |- context [times n call ?w'] => destruct (IH w' Hq) as (l & Hl & Hactions)
    end.
    exists ({| action := a; heap_at_dispatch := heap w |} :: l).
    rewrite Hl. cbn. split; [by rewrite <- app_assoc | by rewrite Hactions].
Qed.

(** X5: the facade keeps no record of a handle having been unsubscribed.
    Calling unsubscribe [n] times hands the store [n] RemoveQueryActions for
    the same queryId, none of them fails, and neither the query object nor
    the cached snapshot changes. *)
Theorem unsubscribe_dispatches_every_time
    (w : World) (query : loc) (fields : gmap string val)
    (w2 : World) (fields2 : gmap string val) (n : nat) :
  heap w !! query = Some fields ->
  heap w2 !! query = Some fields2 ->
  let queryId := default VUndefined (fields2 !! "queryId") in
  ((times n (unsubscribe_in (findOne query w)) w2).1 = Normal tt
   /\ new_actions w2 (times n (unsubscribe_in (findOne query w)) w2).2
      = replicate n (RemoveQueryAction queryId)
   /\ heap (times n (unsubscribe_in (findOne query w)) w2).2 = heap w2
   /\ storeSnapshot (times n (unsubscribe_in (findOne query w)) w2).2 = storeSnapshot w2)
  /\ ((times n (unsubscribe_in (findMany query w)) w2).1 = Normal tt
      /\ new_actions w2 (times n (unsubscribe_in (findMany query w)) w2).2
         = replicate n (RemoveQueryAction queryId)
      /\ heap (times n (unsubscribe_in (findMany query w)) w2).2 = heap w2
      /\ storeSnapshot (times n (unsubscribe_in (findMany query w)) w2).2
         = storeSnapshot w2).
Proof.
  intros Hq Hq2 queryId. split.
  - destruct (times_dispatch (unsubscribe_in (findOne query w)) query fields2
                (RemoveQueryAction queryId)) with (n := n) (w := w2)
      as (l & Hl & Hactions); [| done |].
    + intros w' Hw'. rewrite (findOne_run w query fields Hq).
      cbn -[bind]. by rewrite (unsubscribe_run w' query fields2 Hw').
    + rewrite Hl. cbn -[new_actions]. repeat split.
      by erewrite new_actions_app by (cbn; reflexivity).
  - destruct (times_dispatch (unsubscribe_in (findMany query w)) query fields2
                (RemoveQueryAction queryId)) with (n := n) (w := w2)
      as (l & Hl & Hactions); [| done |].
    + intros w' Hw'. rewrite (findMany_run w query fields Hq).
      cbn -[bind]. by rewrite (unsubscribe_run w' query fields2 Hw').
    + rewrite Hl. cbn -[new_actions]. repeat split.
      by erewrite new_actions_app by (cbn; reflexivity).
Qed.

Lemma unsubscribe_dispatches_every_time_witness :
  new_actions (findOne 2%positive Sample.world).2
    (times 3 (unsubscribe_in (findOne 2%positive Sample.world))
       (findOne 2%positive Sample.world).2).2
  = [RemoveQueryAction (VStr "q2"); RemoveQueryAction (VStr "q2");
     RemoveQueryAction (VStr "q2")].
Proof.
  exact (proj1 (proj2 (proj1
           (unsubscribe_dispatches_every_time Sample.world 2%positive
              {[ "queryId" := VStr "q2"; "type" := VStr "article";
                 "queryType" := VStr "getOne" ]}
              (findOne 2%positive Sample.world).2
              (<["queryType" := VStr "getOne"]>
                 {[ "queryId" := VStr "q2"; "type" := VStr "article";
                    "queryType" := VStr "getOne" ]})
              3 eq_refl eq_refl)))).
Defined.

(** ** Reusing a query object *)

Lemma findOne_then_findMany_run (w : World) (query : loc) (fields : gmap string val) :
  heap w !! query = Some fields ->
  let read := ApiReadInitAction {| payload_jsonApiData := VUndefined;
                                   payload_query := VRef query |} in
  let heap1 := <[query := <["queryType" := VStr "getOne"]> fields]> (heap w) in
  let heap2 := <[query := <["queryType" := VStr "getMany"]> fields]> (heap w) in
  (findMany query (findOne query w).2).2 =
    {| heap := heap2; storeSnapshot := storeSnapshot w;
       storeLocation := storeLocation w;
       dispatched := dispatched w
                     ++ [{| action := read; heap_at_dispatch := heap1 |};
                         {| action := read; heap_at_dispatch := heap2 |}] |}.
Proof.
  intros Hq. cbn zeta.
  rewrite (findOne_run w query fields Hq). cbn [snd].
  erewrite findMany_run by (cbn; apply lookup_insert_eq).
  cbn. rewrite insert_insert_eq, insert_insert_eq.
  by rewrite <- app_assoc.
Qed.

Lemma findOne_twice_run (w : World) (query : loc) (fields : gmap string val) :
  heap w !! query = Some fields ->
  let read := ApiReadInitAction {| payload_jsonApiData := VUndefined;
                                   payload_query := VRef query |} in
  let heap1 := <[query := <["queryType" := VStr "getOne"]> fields]> (heap w) in
  (findOne query (findOne query w).2).2 =
    {| heap := heap1; storeSnapshot := storeSnapshot w;
       storeLocation := storeLocation w;
       dispatched := dispatched w
                     ++ [{| action := read; heap_at_dispatch := heap1 |};
                         {| action := read; heap_at_dispatch := heap1 |}] |}.
Proof.
  intros Hq. cbn zeta.
  rewrite (findOne_run w query fields Hq). cbn [snd].
  erewrite findOne_run by (cbn; apply lookup_insert_eq).
  cbn. rewrite insert_insert_eq, insert_insert_eq.
  by rewrite <- app_assoc.
Qed.

Lemma findMany_twice_run (w : World) (query : loc) (fields : gmap string val) :
  heap w !! query = Some fields ->
  let read := ApiReadInitAction {| payload_jsonApiData := VUndefined;
                                   payload_query := VRef query |} in
  let heap1 := <[query := <["queryType" := VStr "getMany"]> fields]> (heap w) in
  (findMany query (findMany query w).2).2 =
    {| heap := heap1; storeSnapshot := storeSnapshot w;
       storeLocation := storeLocation w;
       dispatched := dispatched w
                     ++ [{| action := read; heap_at_dispatch := heap1 |};
                         {| action := read; heap_at_dispatch := heap1 |}] |}.
Proof.
  intros Hq. cbn zeta.
  rewrite (findMany_run w query fields Hq). cbn [snd].
  erewrite findMany_run by (cbn; apply lookup_insert_eq).
  cbn. rewrite insert_insert_eq, insert_insert_eq.
  by rewrite <- app_assoc.
Qed.

(** X6: a query object passed first to findOne and then to findMany is
    shared, not copied. Both read intents carry a reference to the same
    object; the store saw queryType getOne at the first dispatch, and after
    the second call the object that the first intent still refers to says
    getMany. *)
Theorem find_shares_query_object
    (w : World) (query : loc) (fields : gmap string val) :
  heap w !! query = Some fields ->
  let w2 := (findMany query (findOne query w).2).2 in
  let read := ApiReadInitAction {| payload_jsonApiData := VUndefined;
                                   payload_query := VRef query |} in
  exists d1 d2,
    dispatched w2 = dispatched w ++ [d1; d2]
    /\ action d1 = read /\ action d2 = read
    /\ (heap_at_dispatch d1 !! query ≫= (.!! "queryType")) = Some (VStr "getOne")
    /\ (heap_at_dispatch d2 !! query ≫= (.!! "queryType")) = Some (VStr "getMany")
    /\ (heap w2 !! query ≫= (.!! "queryType")) = Some (VStr "getMany").
Proof.
  intros Hq w2 read. subst w2.
  rewrite (findOne_then_findMany_run w query fields Hq).
  eexists _, _. split; [reflexivity |]. cbn.
  repeat split; rewrite lookup_insert_eq; cbn; by rewrite lookup_insert_eq.
Qed.

Lemma find_shares_query_object_witness :
  (heap (findMany 2%positive (findOne 2%positive Sample.world).2).2 !! 2%positive
     ≫= (.!! "queryType")) = Some (VStr "getMany").
Proof.
  destruct (find_shares_query_object Sample.world 2%positive
              {[ "queryId" := VStr "q2"; "type" := VStr "article";
                 "queryType" := VStr "getOne" ]} eq_refl)
    as (d1 & d2 & _ & _ & _ & _ & _ & H).
  exact H.
Defined.

(** X7: finding is repeatable on the query object but not on the store. A
    second findOne, or a second findMany, with the same object leaves the
    heap exactly as the first call left it, and still hands the store a
    second read intent: the facade does not notice that the query is already
    registered. *)
Theorem find_again_dispatches_again
    (w : World) (query : loc) (fields : gmap string val) :
  heap w !! query = Some fields ->
  let read := ApiReadInitAction {| payload_jsonApiData := VUndefined;
                                   payload_query := VRef query |} in
  (heap (findOne query (findOne query w).2).2 = heap (findOne query w).2
   /\ new_actions w (findOne query (findOne query w).2).2 = [read; read])
  /\ (heap (findMany query (findMany query w).2).2 = heap (findMany query w).2
      /\ new_actions w (findMany query (findMany query w).2).2 = [read; read]).
Proof.
  intros Hq read. split.
  - rewrite (findOne_twice_run w query fields Hq).
    rewrite (findOne_run w query fields Hq). cbn -[new_actions].
    split; [done |].
    by erewrite new_actions_app by (cbn; reflexivity).
  - rewrite (findMany_twice_run w query fields Hq).
    rewrite (findMany_run w query fields Hq). cbn -[new_actions].
    split; [done |].
    by erewrite new_actions_app by (cbn; reflexivity).
Qed.

Lemma find_again_dispatches_again_witness :
  heap (findOne 1%positive (findOne 1%positive Sample.world).2).2
  = heap (findOne 1%positive Sample.world).2.
Proof.
  exact (proj1 (proj1
           (find_again_dispatches_again Sample.world 1%positive
              {[ "queryId" := VStr "q1"; "type" := VStr "article";
                 "queryType" := VStr "getMany" ]} eq_refl))).
Defined.

(** ** Runs of commands *)

Lemma staging_calls_actions (cs : list StagingCall) (w : World) :
  staging_calls cs w =
    (Normal tt,
     {| heap := heap w; storeSnapshot := storeSnapshot w;
        storeLocation := storeLocation w;
        dispatched :=
          dispatched w
          ++ ((fun c => {| action := staging_action c; heap_at_dispatch := heap w |})
                <$> cs) |}).
Proof.
  revert w. induction cs as [|c cs IH]; intros w.
  - cbn. rewrite app_nil_r. by destruct w.
  - cbn -[staging_calls]. 
    assert (Hc : staging_call c w =
                 (Normal tt,
                  {| heap := heap w; storeSnapshot := storeSnapshot w;
                     storeLocation := storeLocation w;
                     dispatched :=
                       dispatched w
                       ++ [{| action := staging_action c;
                              heap_at_dispatch := heap w |}] |}))
      by (by destruct c).
    change (staging_calls (c :: cs) w)
      with (match staging_call c w with
            | (Normal _, w') => staging_calls cs w'
            | (Throw e, w') => (Throw e, w')
            end).
    rewrite Hc, IH. cbn. by rewrite <- app_assoc.
Qed.

Lemma commands_actions (cs : list Command) (w : World) :
  commands cs w =
    (Normal tt,
     {| heap := heap w; storeSnapshot := storeSnapshot w;
        storeLocation := storeLocation w;
        dispatched :=
          dispatched w
          ++ ((fun c => {| action := command_action c; heap_at_dispatch := heap w |})
                <$> cs) |}).
Proof.
  revert w. induction cs as [|c cs IH]; intros w.
  - cbn. rewrite app_nil_r. by destruct w.
  - assert (Hc : command c w =
                 (Normal tt,
                  {| heap := heap w; storeSnapshot := storeSnapshot w;
                     storeLocation := storeLocation w;
                     dispatched :=
                       dispatched w
                       ++ [{| action := command_action c;
                              heap_at_dispatch := heap w |}] |}))
      by (by destruct c).
    change (commands (c :: cs) w)
      with (match command c w with
            | (Normal _, w') => commands cs w'
            | (Throw e, w') => (Throw e, w')
            end).
    rewrite Hc, IH. cbn. by rewrite <- app_assoc.
Qed.

(** X8: staged edits reach the store in call order and commit comes last.
    A run of patchResource, postResource and deleteResource calls followed by
    commit() never fails and hands the store one staging action per call, in
    the order of the calls, and then one ApiCommitInitAction carrying the
    selectors' store location; the heap and the cached snapshot are
    untouched. *)
Theorem staging_then_commit_in_order (cs : list StagingCall) (w : World) :
  let r := (do! staging_calls cs in commit) w in
  r.1 = Normal tt
  /\ new_actions w r.2
     = (staging_action <$> cs) ++ [ApiCommitInitAction (storeLocation w)]
  /\ heap r.2 = heap w
  /\ storeSnapshot r.2 = storeSnapshot w.
Proof.
  cbn zeta.
  change ((do! staging_calls cs in commit) w)
    with (match staging_calls cs w with
          | (Normal _, w') => commit w'
          | (Throw e, w') => (Throw e, w')
          end).
  rewrite staging_calls_actions. cbn -[new_actions].
  repeat split.
  erewrite new_actions_app by (cbn; rewrite <- app_assoc; reflexivity).
  rewrite fmap_app, <- list_fmap_compose. done.
Qed.

(** X9: the commands of NgrxJsonApiService are forwarded one for one and in
    order. Any run of create, read, update, delete and deleteFromState calls
    never fails and hands the store exactly one action per call, of the
    class that belongs to the call and with the call's payload, in call
    order; the heap and the cached snapshot are untouched. *)
Theorem commands_forwarded_in_order (cs : list Command) (w : World) :
  (commands cs w).1 = Normal tt
  /\ new_actions w (commands cs w).2 = command_action <$> cs
  /\ heap (commands cs w).2 = heap w
  /\ storeSnapshot (commands cs w).2 = storeSnapshot w.
Proof.
  rewrite commands_actions. cbn -[new_actions].
  repeat split.
  erewrite new_actions_app by (cbn; reflexivity).
  by rewrite <- list_fmap_compose.
Qed.


(** ** Unsubscribing and the registry *)

Lemma unsubscribe_twice_actions (call : M unit) (query : loc) (fields : gmap string val)
    (a : Action) (w : World) :
  (forall w, heap w !! query = Some fields ->
             call w =
               (Normal tt,
                {| heap := heap w; storeSnapshot := storeSnapshot w;
                   storeLocation := storeLocation w;
                   dispatched := dispatched w
                                 ++ [{| action := a; heap_at_dispatch := heap w |}] |})) ->
  heap w !! query = Some fields ->
  new_actions w (call w).2 = [a]
  /\ new_actions w (times 2 call w).2 = [a; a].
Proof.
  intros Hcall Hq. split.
  - rewrite (Hcall w Hq). by erewrite new_actions_app by (cbn; reflexivity).
  - destruct (times_dispatch call query fields a Hcall 2 w Hq) as (l & Hl & Hactions).
    rewrite Hl. erewrite new_actions_app by (cbn; reflexivity). by rewrite Hactions.
Qed.

(** C5, as the code has it: unsubscribing the handle that findOne or
    findMany returned calls removeQuery with the queryId that the query object
    holds at the moment of the call, which is the handle's own query as long
    as the caller has not reassigned queryId, and dispatches one
    RemoveQueryAction; a second unsubscribe dispatches a second one. In the
    registry, taking the RemoveQueryAction removes the named query, taking it
    a second time changes nothing, and after the removal no run of cache
    events that does not register the identifier again delivers a result
    under it. *)
Theorem unsubscribe_removes_query :
  (forall (w : World) (query : loc) (fields : gmap string val)
          (w2 : World) (fields2 : gmap string val) (k : string) (s : Core.State),
      heap w !! query = Some fields ->
      heap w2 !! query = Some fields2 ->
      fields2 !! "queryId" = Some (VStr k) ->
      ((unsubscribe_in (findOne query w) w2).1 = Normal tt
       /\ new_actions w2 (unsubscribe_in (findOne query w) w2).2
          = [RemoveQueryAction (VStr k)]
       /\ Core.reduce_removals
            (new_actions w2 (unsubscribe_in (findOne query w) w2).2) s
          = Core.removeQuery k s
       /\ Core.reduce_removals
            (new_actions w2 (times 2 (unsubscribe_in (findOne query w)) w2).2) s
          = Core.removeQuery k s
       /\ (fields !! "queryId" = Some (VStr k) ->
           results_source (findOne query w) = VStr k))
      /\ ((unsubscribe_in (findMany query w) w2).1 = Normal tt
          /\ new_actions w2 (unsubscribe_in (findMany query w) w2).2
             = [RemoveQueryAction (VStr k)]
          /\ Core.reduce_removals
               (new_actions w2 (unsubscribe_in (findMany query w) w2).2) s
             = Core.removeQuery k s
          /\ Core.reduce_removals
               (new_actions w2 (times 2 (unsubscribe_in (findMany query w)) w2).2) s
             = Core.removeQuery k s
          /\ (fields !! "queryId" = Some (VStr k) ->
              results_source (findMany query w) = VStr k)))
  /\ (forall (k : string) (s : Core.State),
         Core.registry (Core.removeQuery k s) !! k = None
         /\ Core.removeQuery k (Core.removeQuery k s) = Core.removeQuery k s
         /\ (Core.registry s !! k = None -> Core.removeQuery k s = s))
  /\ (forall (resolve : Core.Query -> NgrxJsonApiStore -> list ResourceIdentifier)
             (k : string) (s : Core.State) (es : list Core.Event),
         forallb (fun e => negb (Core.registers k e)) es = true ->
         forall d, d ∈ Core.run resolve es (Core.removeQuery k s) -> d.1 <> k).
Proof.
  assert (Hidem : forall k s,
             Core.removeQuery k (Core.removeQuery k s) = Core.removeQuery k s).
  { intros k s. unfold Core.removeQuery. cbn. by rewrite delete_delete_eq. }
  split; [| split].
  - intros w query fields w2 fields2 k s Hq Hq2 Hk. split.
    + destruct (unsubscribe_twice_actions (unsubscribe_in (findOne query w))
                  query fields2 (RemoveQueryAction (VStr k)) w2) as [H1 H2]; [| done |].
      { intros w' Hw'. rewrite (findOne_run w query fields Hq).
        cbn -[bind]. rewrite (unsubscribe_run w' query fields2 Hw'). by rewrite Hk. }
      rewrite H1, H2. cbn -[unsubscribe_in findOne]. rewrite Hidem.
      repeat split.
      * rewrite (findOne_run w query fields Hq). cbn -[bind].
        by rewrite (unsubscribe_run w2 query fields2 Hq2).
      * intros Hid. rewrite (findOne_run w query fields Hq). cbn. by rewrite Hid.
    + destruct (unsubscribe_twice_actions (unsubscribe_in (findMany query w))
                  query fields2 (RemoveQueryAction (VStr k)) w2) as [H1 H2]; [| done |].
      { intros w' Hw'. rewrite (findMany_run w query fields Hq).
        cbn -[bind]. rewrite (unsubscribe_run w' query fields2 Hw'). by rewrite Hk. }
      rewrite H1, H2. cbn -[unsubscribe_in findMany]. rewrite Hidem.
      repeat split.
      * rewrite (findMany_run w query fields Hq). cbn -[bind].
        by rewrite (unsubscribe_run w2 query fields2 Hq2).
      * intros Hid. rewrite (findMany_run w query fields Hq). cbn. by rewrite Hid.
  - intros k s. split; [| split].
    + unfold Core.removeQuery. cbn. apply lookup_delete_eq.
    + apply Hidem.
    + intros Hk. unfold Core.removeQuery. rewrite delete_id by done. by destruct s.
  - intros resolve k s es Hes d Hd.
    apply (run_unregistered resolve k es (Core.removeQuery k s) d Hes); [| done].
    cbn. apply lookup_delete_eq.
Qed.

Lemma unsubscribe_removes_query_witness :
  Core.reduce_removals
    (new_actions (findOne 2%positive Sample.world).2
       (times 2 (unsubscribe_in (findOne 2%positive Sample.world))
          (findOne 2%positive Sample.world).2).2)
    Sample.registered
  = Core.removeQuery "q2" Sample.registered.
Proof.
  exact (proj1 (proj2 (proj2 (proj2 (proj1
           (proj1 unsubscribe_removes_query Sample.world 2%positive
              {[ "queryId" := VStr "q2"; "type" := VStr "article";
                 "queryType" := VStr "getOne" ]}
              (findOne 2%positive Sample.world).2
              (<["queryType" := VStr "getOne"]>
                 {[ "queryId" := VStr "q2"; "type" := VStr "article";
                    "queryType" := VStr "getOne" ]})
              "q2" Sample.registered eq_refl eq_refl eq_refl)))))).
Defined.

(** C5 as the spec words it fails: the handle selects the results of q2, the
    caller reassigns queryId, and unsubscribing then removes q9; q2 stays
    registered and the next cache mutation still delivers a result under
    it. *)
Lemma unsubscribe_can_remove_another_query :
  results_source (findOne 2%positive Sample.world) = VStr "q2"
  /\ new_actions Sample.reassigned
       (unsubscribe_in (findOne 2%positive Sample.world) Sample.reassigned).2
     = [RemoveQueryAction (VStr "q9")]
  /\ Core.registry
       (Core.reduce_removals
          (new_actions Sample.reassigned
             (unsubscribe_in (findOne 2%positive Sample.world) Sample.reassigned).2)
          Sample.registered) !! "q2"
     = Some {| Core.queryType := "getOne"; Core.queryParams := VRef 2%positive |}
  /\ Core.run (fun _ _ => [])
       [Core.UpsertPersisted (Sample.article "1")]
       (Core.reduce_removals
          (new_actions Sample.reassigned
             (unsubscribe_in (findOne 2%positive Sample.world) Sample.reassigned).2)
          Sample.registered)
     = [("q2", [])].
Proof. repeat split; vm_compute; reflexivity. Qed.
